(** * Post-comments service: a shallow embedding and its checked properties

    The development follows the layout of the service:
    - [PyStr]: Python [str] values, [str.strip] and [str(int)];
    - the request and response schemas of [app/schemas] with their field
      validators;
    - the table models of [app/models] and the session that stores them;
    - the route handlers of [app/api/posts.py] and [app/api/comments.py],
      and the routes that serve them;
    - the properties of the handlers: creation, update, listing, counting,
      deletion, failures of the database, and the invariant of the states
      the requests reach. *)

From Stdlib Require Import ZArith List Bool Lia String Ascii Permutation Sorted.
From Stdlib Require Import DecimalString.
Import ListNotations.
Local Open Scope Z_scope.

(* ================================================================== *)
(** ** Python strings *)

Module PyStr.

(** A Python [str] is a sequence of Unicode code points. *)
Definition str := list N.

Definition lit (s : string) : str :=
List.map N_of_ascii (list_ascii_of_string s).

(** [str(n)] for an [int]: a decimal numeral, with a leading minus sign for
  negative numbers. *)
Definition str_of_int (n : Z) : str :=
lit (NilZero.string_of_int (Z.to_int n)).

(** The code points [str.strip()] removes: those for which [str.isspace]
  holds. *)
Definition isspace (c : N) : bool :=
((9 <=? c) && (c <=? 13) || (28 <=? c) && (c <=? 32)
 || (c =? 133) || (c =? 160) || (c =? 5760)
 || (8192 <=? c) && (c <=? 8202)
 || (c =? 8232) || (c =? 8233) || (c =? 8239) || (c =? 8287)
 || (c =? 12288))%N.

Fixpoint lstrip (s : str) : str :=
match s with
| [] => []
| c :: s' => if isspace c then lstrip s' else s
end.

Definition rstrip (s : str) : str := rev (lstrip (rev s)).

(** [s.strip()]: leading white space is skipped first, then trailing. *)
Definition strip (s : str) : str := rstrip (lstrip s).

(** Truth value of a [str]: the empty string is false. *)
Definition truthy (s : str) : bool :=
match s with [] => false | _ :: _ => true end.

End PyStr.
Import PyStr.

(* ================================================================== *)
(** ** Exceptions *)

(** [HTTPException] carries the status code and the detail of the response.
    [Exception] stands for every other exception; its argument is [str(e)]. *)
Inductive exn : Type :=
| HTTPException (status_code : Z) (detail : str)
| Exception (text : str).

Definition HTTP_200_OK : Z := 200.
Definition HTTP_201_CREATED : Z := 201.
Definition HTTP_400_BAD_REQUEST : Z := 400.
Definition HTTP_404_NOT_FOUND : Z := 404.
Definition HTTP_422_UNPROCESSABLE_ENTITY : Z := 422.
Definition HTTP_500_INTERNAL_SERVER_ERROR : Z := 500.

(* ================================================================== *)
(** ** Schemas: [app/schemas/post.py] and [app/schemas/comment.py] *)

(** A field validator returns the cleaned value or raises [ValueError] with
    a message. *)
Definition validated (A : Type) : Type := (A + str)%type.

(** The body shared by the validators of the required fields:
    [if not v or not v.strip(): raise ValueError(msg)]
    [return v.strip()]. *)
Definition must_not_be_empty (msg : string) (v : str) : validated str :=
  if negb (truthy v) || negb (truthy (strip v))
  then inr (lit msg)
  else inl (strip v).

(** The validators of [PostUpdate]:
    [if v is not None and (not v or not v.strip()): raise ValueError(msg)]
    [return v.strip() if v else v]. *)
Definition opt_must_not_be_empty (msg : string) (v : option str)
  : validated (option str) :=
  match v with
  | None => inl None
  | Some w =>
      if negb (truthy w) || negb (truthy (strip w))
      then inr (lit msg)
      else inl (if truthy w then Some (strip w) else Some w)
  end.

Module PostBase.
Definition title_must_not_be_empty := must_not_be_empty "Title cannot be empty".
Definition content_must_not_be_empty := must_not_be_empty "Content cannot be empty".
End PostBase.

Module CommentBase.
Definition content_must_not_be_empty := must_not_be_empty "Content cannot be empty".
Definition author_must_not_be_empty := must_not_be_empty "Author cannot be empty".
End CommentBase.

(** A JSON request body before validation.  A field is [None] when it is
    absent from the body (or, for a field of type [str], is not a string). *)
Module PostPayload.
Record t := mk { title : option str; content : option str; author : option str }.
End PostPayload.

Module CommentPayload.
Record t := mk { content : option str; author : option str;
                 parent_comment_id : option Z }.
End CommentPayload.

Module CommentUpdatePayload.
Record t := mk { content : option str }.
End CommentUpdatePayload.

(** A request body is refused with the name of the offending field and the
    message of the failure. *)
Definition ValidationError : Type := (string * str)%type.

Definition field_required : str := lit "Field required".

Definition required {A} (name : string) (v : option str)
  (check : str -> validated str) (k : str -> A + ValidationError)
  : A + ValidationError :=
  match v with
  | None => inr (name, field_required)
  | Some w =>
      match check w with
      | inr msg => inr (name, msg)
      | inl w' => k w'
      end
  end.

(** [PostCreate(PostBase)]: [title] and [content] have a validator,
    [author] is a required [str] without one. *)
Module PostCreate.
Record t := mk { title : str; content : str; author : str }.

Definition validate (p : PostPayload.t) : t + ValidationError :=
  required "title" (PostPayload.title p) PostBase.title_must_not_be_empty
    (fun title =>
  required "content" (PostPayload.content p) PostBase.content_must_not_be_empty
    (fun content =>
  required "author" (PostPayload.author p) inl
    (fun author => inl (mk title content author)))).
End PostCreate.

(** [PostUpdate]: both fields optional. *)
Module PostUpdate.
Record t := mk { title : option str; content : option str }.

Definition validate (title content : option str) : t + ValidationError :=
  match opt_must_not_be_empty "Title cannot be empty" title with
  | inr msg => inr ("title"%string, msg)
  | inl title' =>
      match opt_must_not_be_empty "Content cannot be empty" content with
      | inr msg => inr ("content"%string, msg)
      | inl content' => inl (mk title' content')
      end
  end.
End PostUpdate.

(** [CommentCreate(CommentBase)]. *)
Module CommentCreate.
Record t := mk { content : str; author : str; parent_comment_id : option Z }.

Definition validate (p : CommentPayload.t) : t + ValidationError :=
  required "content" (CommentPayload.content p)
    CommentBase.content_must_not_be_empty
    (fun content =>
  required "author" (CommentPayload.author p)
    CommentBase.author_must_not_be_empty
    (fun author =>
       inl (mk content author (CommentPayload.parent_comment_id p)))).
End CommentCreate.

(** [CommentUpdate]: the content only. *)
Module CommentUpdate.
Record t := mk { content : str }.

Definition content_must_not_be_empty := must_not_be_empty "Content cannot be empty".

Definition validate (p : CommentUpdatePayload.t) : t + ValidationError :=
  required "content" (CommentUpdatePayload.content p)
    content_must_not_be_empty (fun content => inl (mk content)).
End CommentUpdate.

(* ================================================================== *)
(** ** Table models: [app/models/post.py] and [app/models/comment.py] *)

(** A time stamp is an instant of the UTC clock, counted in microseconds. *)
Definition datetime := Z.

(** A row of [posts].  [author] is [Optional[str]] in the table. *)
Module Post.
Record t := mk {
  id : Z;
  title : str;
  content : str;
  author : option str;
  created_at : datetime;
  updated_at : datetime }.
End Post.

(** A row of [comments].  [post_id] is a required foreign key to [posts.id],
    [parent_comment_id] an optional foreign key to [comments.id].  Neither
    column declares an [ondelete] action, and none of the relationships
    ([Post.comments], [Comment.post], [Comment.parent], [Comment.replies])
    declares a delete cascade. *)
Module Comment.
Record t := mk {
  id : Z;
  content : str;
  author : option str;
  post_id : Z;
  parent_comment_id : option Z;
  created_at : datetime;
  updated_at : datetime }.

Definition set_content (v : str) (c : t) : t :=
  mk (id c) v (author c) (post_id c) (parent_comment_id c)
     (created_at c) (updated_at c).

Definition set_updated_at (v : datetime) (c : t) : t :=
  mk (id c) (content c) (author c) (post_id c) (parent_comment_id c)
     (created_at c) v.

Definition set_parent_comment_id (v : option Z) (c : t) : t :=
  mk (id c) (content c) (author c) (post_id c) v
     (created_at c) (updated_at c).
End Comment.

(** The two tables, in row order. *)
Record DB := mkDB { posts : list Post.t; comments : list Comment.t }.

Definition empty_db : DB := mkDB [] [].

(** The integer primary key given to the next inserted row: one more than
    the largest key of the table, 1 for an empty table (the engine of
    [app/database.py] is an SQLite one, and the key is the row id). *)
Definition next_id (ids : list Z) : Z := 1 + fold_right Z.max 0 ids.

Definition find_post (k : Z) (db : DB) : option Post.t :=
  find (fun p => Post.id p =? k) (posts db).

Definition find_comment (k : Z) (db : DB) : option Comment.t :=
  find (fun c => Comment.id c =? k) (comments db).

(** The rows reached through the relationship [Post.comments]. *)
Definition comments_of (k : Z) (db : DB) : list Comment.t :=
  filter (fun c => Comment.post_id c =? k) (comments db).

Definition opt_eqb (a : option Z) (k : Z) : bool :=
  match a with Some x => x =? k | None => false end.

(** *** [ORDER BY], [OFFSET] and [LIMIT] *)

Section OrderBy.
Context {A : Type} (le : A -> A -> bool).

Fixpoint insert_by (x : A) (l : list A) : list A :=
  match l with
  | [] => [x]
  | y :: l' => if le x y then x :: l else y :: insert_by x l'
  end.

Fixpoint order_by (l : list A) : list A :=
  match l with
  | [] => []
  | x :: l' => insert_by x (order_by l')
  end.
End OrderBy.

(** The handlers ask for an offset that is not negative and a limit of at
    least one. *)
Definition offset_limit {A} (offset limit : Z) (rows : list A) : list A :=
  firstn (Z.to_nat limit) (skipn (Z.to_nat offset) rows).

Definition post_created_desc (a b : Post.t) : bool :=
  Post.created_at b <=? Post.created_at a.

Definition comment_created_asc (a b : Comment.t) : bool :=
  Comment.created_at a <=? Comment.created_at b.

(** *** The unit of work *)

(** What a session has been told and has not flushed yet. *)
Inductive change : Type :=
| Add_post (p : Post.t)
| Add_comment (c : Comment.t)
| Set_comment (k : Z) (content : str) (updated_at : datetime)
| Delete_post (p : Post.t)
| Delete_comment (c : Comment.t).

(** The message of the constraint the database reports when a flush writes
    NULL into [comments.post_id]. *)
Definition integrity_error : str :=
  lit "NOT NULL constraint failed: comments.post_id".

(** The rows after the statements a flush sends. *)
Definition insert_post (p : Post.t) (db : DB) : DB :=
  mkDB (posts db ++ [p]) (comments db).

Definition insert_comment (c : Comment.t) (db : DB) : DB :=
  mkDB (posts db) (comments db ++ [c]).

(** [UPDATE comments SET content = v, updated_at = u WHERE id = k]. *)
Definition update_comment_row (k : Z) (v : str) (u : datetime) (db : DB) : DB :=
  mkDB (posts db)
    (map (fun r => if Comment.id r =? k
                   then Comment.set_updated_at u (Comment.set_content v r)
                   else r) (comments db)).

(** [UPDATE comments SET parent_comment_id = NULL WHERE parent_comment_id = k]. *)
Definition detach_replies (k : Z) (db : DB) : DB :=
  mkDB (posts db)
    (map (fun r => if opt_eqb (Comment.parent_comment_id r) k
                   then Comment.set_parent_comment_id None r else r)
         (comments db)).

Definition delete_comment_row (k : Z) (db : DB) : DB :=
  mkDB (posts db) (filter (fun r => negb (Comment.id r =? k)) (comments db)).

Definition delete_post_row (k : Z) (db : DB) : DB :=
  mkDB (filter (fun r => negb (Post.id r =? k)) (posts db)) (comments db).

(** The flush of one change, as the unit of work of the ORM does it for the
    relationships the models declare.
    - An added row is appended to its table.
    - A modified comment has the assigned attributes written to its row.
    - Deleting a parent row whose relationship to its children has no delete
      cascade first writes NULL into the foreign key of every child:
      for [Comment.replies] the column [parent_comment_id] is nullable and
      the replies stay, detached; for [Post.comments] the column [post_id]
      is NOT NULL and the statement is refused. *)
Definition apply_change (c : change) (db : DB) : DB + str :=
  match c with
  | Add_post p => inl (insert_post p db)
  | Add_comment x => inl (insert_comment x db)
  | Set_comment k v u => inl (update_comment_row k v u db)
  | Delete_post p =>
      match comments_of (Post.id p) db with
      | [] => inl (delete_post_row (Post.id p) db)
      | _ :: _ => inr integrity_error
      end
  | Delete_comment x =>
      inl (delete_comment_row (Comment.id x) (detach_replies (Comment.id x) db))
  end.

Fixpoint flush (cs : list change) (db : DB) : DB + str :=
  match cs with
  | [] => inl db
  | c :: cs' =>
      match apply_change c db with
      | inl db' => flush cs' db'
      | inr e => inr e
      end
  end.

(** *** The session *)

Inductive event : Type :=
| Ev_get | Ev_exec | Ev_load | Ev_refresh
| Ev_add | Ev_delete | Ev_set
| Ev_commit | Ev_rollback | Ev_close.

(** [store]: the committed rows.  [pending]: the unit of work.
    [faults]: what the database does at each coming round trip, in order;
    [Some e] is an unexpected failure whose exception prints as [e], and an
    exhausted list means no failure.  [log]: the calls made on the session. *)
Record Session := mkSession {
  store : DB;
  pending : list change;
  faults : list (option str);
  log : list event }.

(** [get_db]: a session of its own for every request. *)
Definition get_db (db : DB) (fs : list (option str)) : Session :=
  mkSession db [] fs [].

Definition session_close (s : Session) : Session :=
  mkSession (store s) [] (faults s) (log s ++ [Ev_close]).

(** Handlers run in a state monad over the session, with exceptions. *)
Definition M (A : Type) : Type := Session -> (A + exn) * Session.

Definition ret {A} (a : A) : M A := fun s => (inl a, s).

Definition raise {A} (e : exn) : M A := fun s => (inr e, s).

Definition bind {A B} (m : M A) (k : A -> M B) : M B :=
  fun s => match m s with
           | (inl a, s') => k a s'
           | (inr e, s') => (inr e, s')
           end.

Notation "x <- m ;; k" := (bind m (fun x => k))
  (at level 61, m at next level, right associativity).
Notation "m ;;; k" := (bind m (fun _ => k))
  (at level 61, right associativity).

Definition try_except {A} (body : M A) (handler : exn -> M A) : M A :=
  fun s => match body s with
           | (inl a, s') => (inl a, s')
           | (inr e, s') => handler e s'
           end.

Definition lift {A} (r : A + exn) : M A := fun s => (r, s).

Fixpoint mapM {A B} (f : A -> M B) (l : list A) : M (list B) :=
  match l with
  | [] => ret []
  | x :: l' => y <- f x ;; ys <- mapM f l' ;; ret (y :: ys)
  end.

Definition record (e : event) : M unit :=
  fun s => (inl tt, mkSession (store s) (pending s) (faults s) (log s ++ [e])).

(** One round trip to the database. *)
Definition round_trip (e : event) : M unit :=
  fun s =>
    let s' fs := mkSession (store s) (pending s) fs (log s ++ [e]) in
    match faults s with
    | [] => (inl tt, s' [])
    | None :: fs => (inl tt, s' fs)
    | Some text :: fs => (inr (Exception text), s' fs)
    end.

Definition query {A} (f : DB -> A) : M A := fun s => (inl (f (store s)), s).

Definition enqueue (c : change) : M unit :=
  fun s => (inl tt, mkSession (store s) (pending s ++ [c]) (faults s) (log s)).

(** *** Integers as parameters of a statement *)

(** An integer of SQLite has 64 bits and a sign.  The driver refuses to bind
    any other [int] to a statement: it raises [OverflowError], which prints
    as [int_too_large]. *)
Definition sqlite_int (k : Z) : bool := (- 2 ^ 63 <=? k) && (k <? 2 ^ 63).

Definition int_too_large : str :=
  lit "Python int too large to convert to SQLite INTEGER".

(** The tables of the model are lists and their keys are integers of any
    size; a table of SQLite has 64-bit keys and fewer than [2 ^ 63] rows.  A
    statement that finds a row has therefore bound 64-bit integers only, and
    the refusal of the driver is modelled where it can occur: in a statement
    that finds no row. *)

(** [db.get(Post, k)] and [db.get(Comment, k)]: the key is bound to the
    [SELECT] the session sends. *)
Definition db_get_post (k : Z) : M (option Post.t) :=
  round_trip Ev_get ;;;
  r <- query (find_post k) ;;
  match r with
  | Some _ => ret r
  | None => if sqlite_int k then ret None else raise (Exception int_too_large)
  end.

Definition db_get_comment (k : Z) : M (option Comment.t) :=
  round_trip Ev_get ;;;
  r <- query (find_comment k) ;;
  match r with
  | Some _ => ret r
  | None => if sqlite_int k then ret None else raise (Exception int_too_large)
  end.

(** The first read of [post.comments]. *)
Definition load_comments (p : Post.t) : M (list Comment.t) :=
  round_trip Ev_load ;;; query (comments_of (Post.id p)).

(** [db.add(obj)].  The object receives its primary key when it is flushed;
    no handler writes between [add] and [commit], so the key is the one the
    table offers when the object is added. *)
Definition db_add_post (mk : Z -> Post.t) : M Z :=
  k <- query (fun db => next_id (map Post.id (posts db))) ;;
  record Ev_add ;;; enqueue (Add_post (mk k)) ;;; ret k.

Definition db_add_comment (mk : Z -> Comment.t) : M Z :=
  k <- query (fun db => next_id (map Comment.id (comments db))) ;;
  record Ev_add ;;; enqueue (Add_comment (mk k)) ;;; ret k.

(** Assignments to the attributes of a loaded comment. *)
Definition db_set_comment (k : Z) (content : str) (updated_at : datetime) : M unit :=
  record Ev_set ;;; enqueue (Set_comment k content updated_at).

Definition db_delete_post (p : Post.t) : M unit :=
  record Ev_delete ;;; enqueue (Delete_post p).

Definition db_delete_comment (c : Comment.t) : M unit :=
  record Ev_delete ;;; enqueue (Delete_comment c).

(** [db.commit()]: flush the unit of work and make it durable, all or
    nothing. *)
Definition db_commit : M unit :=
  round_trip Ev_commit ;;;
  fun s => match flush (pending s) (store s) with
           | inl db' => (inl tt, mkSession db' [] (faults s) (log s))
           | inr text => (inr (Exception text), s)
           end.

(** [db.rollback()]: drop the unit of work. *)
Definition db_rollback : M unit :=
  fun s => (inl tt, mkSession (store s) [] (faults s) (log s ++ [Ev_rollback])).

Definition could_not_refresh : str := lit "Could not refresh instance".

(** [db.refresh(obj)]: read the row of the object again. *)
Definition db_refresh_post (k : Z) : M Post.t :=
  round_trip Ev_refresh ;;;
  r <- query (find_post k) ;;
  match r with Some p => ret p | None => raise (Exception could_not_refresh) end.

Definition db_refresh_comment (k : Z) : M Comment.t :=
  round_trip Ev_refresh ;;;
  r <- query (find_comment k) ;;
  match r with Some c => ret c | None => raise (Exception could_not_refresh) end.

(** The statements run with [db.exec].  The offset and the limit are bound
    to the [SELECT]; the handlers pass a limit from 1 to 100, and a post id
    that [db.get] has found.  An offset that is not a 64-bit integer has no
    row behind it in a table of SQLite, and the statement is refused. *)
Definition db_count_posts : M Z :=
  round_trip Ev_exec ;;; query (fun db => Z.of_nat (List.length (posts db))).

Definition db_select_posts (offset limit : Z) : M (list Post.t) :=
  round_trip Ev_exec ;;;
  rows <- query (fun db => offset_limit offset limit
                             (order_by post_created_desc (posts db))) ;;
  match rows with
  | _ :: _ => ret rows
  | [] => if sqlite_int offset then ret [] else raise (Exception int_too_large)
  end.

Definition db_count_comments (post_id : Z) : M Z :=
  round_trip Ev_exec ;;; query (fun db => Z.of_nat (List.length (comments_of post_id db))).

Definition db_select_comments (post_id offset limit : Z) : M (list Comment.t) :=
  round_trip Ev_exec ;;;
  rows <- query (fun db => offset_limit offset limit
                             (order_by comment_created_asc (comments_of post_id db))) ;;
  match rows with
  | _ :: _ => ret rows
  | [] => if sqlite_int offset then ret [] else raise (Exception int_too_large)
  end.

(* ================================================================== *)
(** ** Response schemas *)

Definition not_a_string : str := lit "Input should be a valid string".

(** Building a response model runs the validators it inherits from its base
    class; a refusal is a [ValidationError], an exception like any other. *)
Definition checked {A} (v : validated str) (k : str -> A + exn) : A + exn :=
  match v with
  | inr msg => inr (Exception msg)
  | inl w => k w
  end.

Definition a_string {A} (v : option str) (k : str -> A + exn) : A + exn :=
  match v with
  | None => inr (Exception not_a_string)
  | Some w => k w
  end.

(** [PostResponse(PostBase)]. *)
Module PostResponse.
Record t := mk {
  id : Z;
  title : str;
  content : str;
  author : str;
  created_at : datetime;
  updated_at : datetime;
  comments_count : Z }.

Definition new (id : Z) (title content : str) (author : option str)
  (created_at updated_at : datetime) (comments_count : Z) : t + exn :=
  checked (PostBase.title_must_not_be_empty title) (fun title' =>
  checked (PostBase.content_must_not_be_empty content) (fun content' =>
  a_string author (fun author' =>
  inl (mk id title' content' author' created_at updated_at comments_count)))).
End PostResponse.

Module PostListResponse.
Record t := mk {
  posts : list PostResponse.t;
  total : Z;
  page : Z;
  limit : Z;
  total_pages : Z }.
End PostListResponse.

(** [CommentResponse(CommentBase)]. *)
Module CommentResponse.
Record t := mk {
  id : Z;
  content : str;
  author : str;
  post_id : Z;
  parent_comment_id : option Z;
  created_at : datetime;
  updated_at : datetime }.

Definition new (id : Z) (content : str) (author : option str) (post_id : Z)
  (parent_comment_id : option Z) (created_at updated_at : datetime) : t + exn :=
  checked (CommentBase.content_must_not_be_empty content) (fun content' =>
  checked (match author with
           | Some a => CommentBase.author_must_not_be_empty a
           | None => inr not_a_string
           end) (fun author' =>
  inl (mk id content' author' post_id parent_comment_id created_at updated_at))).
End CommentResponse.

Module CommentListResponse.
Record t := mk {
  comments : list CommentResponse.t;
  total : Z;
  page : Z;
  limit : Z;
  total_pages : Z }.
End CommentListResponse.

(** [str(e)]; an [HTTPException] prints as its status code and detail. *)
Definition str_exn (e : exn) : str :=
  match e with
  | HTTPException st d => str_of_int st ++ lit ": " ++ d
  | Exception text => text
  end.

(** [len(x)], an [int]. *)
Definition len {A} (l : list A) : Z := Z.of_nat (List.length l).

(** The response built from a post and the comments its relationship loads:
    [comments_count=len(post.comments) if post.comments else 0]. *)
Definition post_response (post : Post.t) : M PostResponse.t :=
  cs <- load_comments post ;;
  lift (PostResponse.new (Post.id post) (Post.title post) (Post.content post)
          (Post.author post) (Post.created_at post) (Post.updated_at post)
          (match cs with [] => 0 | _ :: _ => len cs end)).

Definition comment_response (comment : Comment.t) : M CommentResponse.t :=
  lift (CommentResponse.new (Comment.id comment) (Comment.content comment)
          (Comment.author comment) (Comment.post_id comment)
          (Comment.parent_comment_id comment)
          (Comment.created_at comment) (Comment.updated_at comment)).

(** The two ways the handlers end a [try]:
    [except Exception as e] alone, or after [except HTTPException: raise]. *)
Definition server_error {A} (rollback : bool) (prefix : string) (e : exn) : M A :=
  (if rollback then db_rollback else ret tt) ;;;
  raise (HTTPException HTTP_500_INTERNAL_SERVER_ERROR (lit prefix ++ str_exn e)).

Definition reraise_http {A} (rollback : bool) (prefix : string) (e : exn) : M A :=
  match e with
  | HTTPException _ _ => raise e
  | Exception _ => server_error rollback prefix e
  end.

Definition post_not_found {A} (post_id : Z) : M A :=
  raise (HTTPException HTTP_404_NOT_FOUND
           (lit "Post with ID " ++ str_of_int post_id ++ lit " not found")).

Definition comment_not_found {A} (comment_id : Z) : M A :=
  raise (HTTPException HTTP_404_NOT_FOUND
           (lit "Comment with ID " ++ str_of_int comment_id ++ lit " not found")).

(** The check both list handlers make before their [try]. *)
Definition check_pagination (page limit : Z) : M unit :=
  if page <? 1
  then raise (HTTPException HTTP_400_BAD_REQUEST (lit "Page must be >= 1"))
  else if (limit <? 1) || (limit >? 100)
  then raise (HTTPException HTTP_400_BAD_REQUEST
                (lit "Limit must be between 1 and 100"))
  else ret tt.

(* ================================================================== *)
(** ** Handlers of [app/api/posts.py] *)

(** [now1] and [now2] are the two readings of [datetime.now(timezone.utc)]
    taken, in this order, for [created_at] and [updated_at]. *)
Definition create_post (post_data : PostCreate.t) (now1 now2 : datetime)
  : M PostResponse.t :=
  try_except
    (k <- db_add_post (fun id =>
            Post.mk id (PostCreate.title post_data) (PostCreate.content post_data)
              (Some (PostCreate.author post_data)) now1 now2) ;;
     db_commit ;;;
     db_post <- db_refresh_post k ;;
     post_response db_post)
    (server_error true "Failed to create post: ").

Definition get_posts (page limit : Z) : M PostListResponse.t :=
  check_pagination page limit ;;;
  try_except
    (let offset := (page - 1) * limit in
     total <- db_count_posts ;;
     posts <- db_select_posts offset limit ;;
     post_responses <- mapM post_response posts ;;
     let total_pages := (total + limit - 1) / limit in
     ret (PostListResponse.mk post_responses total page limit total_pages))
    (server_error false "Failed to fetch posts: ").

Definition get_post (post_id : Z) : M PostResponse.t :=
  try_except
    (post <- db_get_post post_id ;;
     match post with
     | None => post_not_found post_id
     | Some post => post_response post
     end)
    (reraise_http false "Failed to retrieve post: ").

(** The body of the answer is [{"message": ...}]; the message is kept. *)
Definition delete_post (post_id : Z) : M str :=
  try_except
    (post <- db_get_post post_id ;;
     match post with
     | None => post_not_found post_id
     | Some post =>
         db_delete_post post ;;;
         db_commit ;;;
         ret (lit "Post with ID " ++ str_of_int post_id
              ++ lit " deleted successfully")
     end)
    (reraise_http true "Failed to delete post: ").

Definition get_comments (post_id page limit : Z) : M CommentListResponse.t :=
  check_pagination page limit ;;;
  try_except
    (post <- db_get_post post_id ;;
     match post with
     | None => post_not_found post_id
     | Some _ =>
         let offset := (page - 1) * limit in
         total <- db_count_comments post_id ;;
         comments <- db_select_comments post_id offset limit ;;
         comment_responses <- mapM comment_response comments ;;
         let total_pages := (total + limit - 1) / limit in
         ret (CommentListResponse.mk comment_responses total page limit total_pages)
     end)
    (reraise_http false "Failed to fetch comments: ").

Definition create_comment (post_id : Z) (comment_data : CommentCreate.t)
  (now1 now2 : datetime) : M CommentResponse.t :=
  try_except
    (post <- db_get_post post_id ;;
     match post with
     | None => post_not_found post_id
     | Some _ =>
         match CommentCreate.parent_comment_id comment_data with
         | None => ret tt
         | Some parent_id =>
             parent_comment <- db_get_comment parent_id ;;
             match parent_comment with
             | None =>
                 raise (HTTPException HTTP_404_NOT_FOUND
                          (lit "Parent comment with ID " ++ str_of_int parent_id
                           ++ lit " not found"))
             | Some parent_comment =>
                 if negb (Comment.post_id parent_comment =? post_id)
                 then raise (HTTPException HTTP_400_BAD_REQUEST
                               (lit "Parent comment must belong to the same post"))
                 else ret tt
             end
         end ;;;
         k <- db_add_comment (fun id =>
                Comment.mk id (CommentCreate.content comment_data)
                  (Some (CommentCreate.author comment_data)) post_id
                  (CommentCreate.parent_comment_id comment_data) now1 now2) ;;
         db_commit ;;;
         db_comment <- db_refresh_comment k ;;
         comment_response db_comment
     end)
    (reraise_http true "Failed to create comment: ").

(* ================================================================== *)
(** ** Handlers of [app/api/comments.py] *)

Definition get_comment (comment_id : Z) : M CommentResponse.t :=
  try_except
    (comment <- db_get_comment comment_id ;;
     match comment with
     | None => comment_not_found comment_id
     | Some comment => comment_response comment
     end)
    (reraise_http false "Failed to retrieve comment: ").

(** [now] is the reading of [datetime.now(timezone.utc)]. *)
Definition update_comment (comment_id : Z) (comment_data : CommentUpdate.t)
  (now : datetime) : M CommentResponse.t :=
  try_except
    (comment <- db_get_comment comment_id ;;
     match comment with
     | None => comment_not_found comment_id
     | Some comment =>
         db_set_comment (Comment.id comment)
           (CommentUpdate.content comment_data) now ;;;
         db_commit ;;;
         comment <- db_refresh_comment (Comment.id comment) ;;
         comment_response comment
     end)
    (reraise_http true "Failed to update comment: ").

Definition delete_comment (comment_id : Z) : M str :=
  try_except
    (comment <- db_get_comment comment_id ;;
     match comment with
     | None => comment_not_found comment_id
     | Some comment =>
         db_delete_comment comment ;;;
         db_commit ;;;
         ret (lit "Comment with ID " ++ str_of_int comment_id
              ++ lit " deleted successfully")
     end)
    (reraise_http true "Failed to delete comment: ").

(* ================================================================== *)
(** ** Routes *)

(** What the client receives: the body with the status code of the route,
    or an error with its status code and detail. *)
Inductive Response (A : Type) : Type :=
| JSON (status_code : Z) (body : A)
| Error (status_code : Z) (detail : str).
Arguments JSON {A} status_code body.
Arguments Error {A} status_code detail.

Definition status {A} (r : Response A) : Z :=
  match r with JSON st _ => st | Error st _ => st end.

(** A request: the handler runs in a session of its own, which is closed
    when the request ends.  The result is the response and the rows the
    database holds afterwards. *)
Definition serve {A} (status_code : Z) (h : M A) (db : DB)
  (fs : list (option str)) : Response A * Session :=
  let (r, s) := h (get_db db fs) in
  (match r with
   | inl a => JSON status_code a
   | inr (HTTPException st d) => Error st d
   | inr (Exception _) =>
       Error HTTP_500_INTERNAL_SERVER_ERROR (lit "Internal Server Error")
   end, session_close s).

(** A body that fails validation is answered before the handler runs. *)
Definition unprocessable {A} (e : ValidationError) (db : DB)
  (fs : list (option str)) : Response A * Session :=
  (Error HTTP_422_UNPROCESSABLE_ENTITY (lit (fst e) ++ lit ": " ++ snd e),
   session_close (get_db db fs)).

Module Route.

(** [POST /posts/] *)
Definition POST_posts (body : PostPayload.t) (now1 now2 : datetime) :=
  match PostCreate.validate body with
  | inr e => unprocessable e
  | inl post_data => serve HTTP_201_CREATED (create_post post_data now1 now2)
  end.

(** [GET /posts/?page&limit] *)
Definition GET_posts (page limit : Z) :=
  serve HTTP_200_OK (get_posts page limit).

(** [GET /posts/{post_id}] *)
Definition GET_post (post_id : Z) := serve HTTP_200_OK (get_post post_id).

(** [DELETE /posts/{post_id}] *)
Definition DELETE_post (post_id : Z) := serve HTTP_200_OK (delete_post post_id).

(** [GET /posts/{post_id}/comments?page&limit] *)
Definition GET_post_comments (post_id page limit : Z) :=
  serve HTTP_200_OK (get_comments post_id page limit).

(** [POST /posts/{post_id}/comments] *)
Definition POST_post_comments (post_id : Z) (body : CommentPayload.t)
  (now1 now2 : datetime) :=
  match CommentCreate.validate body with
  | inr e => unprocessable e
  | inl comment_data =>
      serve HTTP_201_CREATED (create_comment post_id comment_data now1 now2)
  end.

(** [GET /comments/{comment_id}] *)
Definition GET_comment (comment_id : Z) :=
  serve HTTP_200_OK (get_comment comment_id).

(** [PUT /comments/{comment_id}] *)
Definition PUT_comment (comment_id : Z) (body : CommentUpdatePayload.t)
  (now : datetime) :=
  match CommentUpdate.validate body with
  | inr e => unprocessable e
  | inl comment_data => serve HTTP_200_OK (update_comment comment_id comment_data now)
  end.

(** [DELETE /comments/{comment_id}] *)
Definition DELETE_comment (comment_id : Z) :=
  serve HTTP_200_OK (delete_comment comment_id).

End Route.

(* ================================================================== *)
(** ** Rows as the schemas accept them *)

(** A stored value that the validators of the response schema return
    unchanged: not empty and already stripped.  The rows of every state the
    requests reach are of this kind (lemma [reachable_valid_rows]). *)
Definition valid_post (p : Post.t) : Prop :=
  PostBase.title_must_not_be_empty (Post.title p) = inl (Post.title p)
  /\ PostBase.content_must_not_be_empty (Post.content p) = inl (Post.content p)
  /\ Post.author p <> None.

Definition valid_comment (c : Comment.t) : Prop :=
  CommentBase.content_must_not_be_empty (Comment.content c)
  = inl (Comment.content c)
  /\ exists a, Comment.author c = Some a
               /\ CommentBase.author_must_not_be_empty a = inl a.

Definition valid_rows (db : DB) : Prop :=
  Forall valid_post (posts db) /\ Forall valid_comment (comments db).

(** [q] is the quotient [a / b] rounded up, for a positive [b]: the least
    number of pages of [b] rows that hold [a] rows. *)
Definition is_ceiling (q a b : Z) : Prop := (q - 1) * b < a <= q * b.

(** The row [create_post] stores. *)
Definition new_post (db : DB) (pd : PostCreate.t) (now1 now2 : datetime) : Post.t :=
  Post.mk (next_id (map Post.id (posts db))) (PostCreate.title pd)
    (PostCreate.content pd) (Some (PostCreate.author pd)) now1 now2.

(** The response that shows a row as it is stored. *)
Definition post_view (db : DB) (p : Post.t) : PostResponse.t :=
  PostResponse.mk (Post.id p) (Post.title p) (Post.content p)
    (match Post.author p with Some a => a | None => [] end)
    (Post.created_at p) (Post.updated_at p)
    (len (comments_of (Post.id p) db)).

Definition comment_view (c : Comment.t) : CommentResponse.t :=
  CommentResponse.mk (Comment.id c) (Comment.content c)
    (match Comment.author c with Some a => a | None => [] end)
    (Comment.post_id c) (Comment.parent_comment_id c)
    (Comment.created_at c) (Comment.updated_at c).

(* ================================================================== *)
(** ** Notions used in the statements *)

(** A string that does not start with white space. *)
Definition clean_front (s : str) : Prop :=
  match s with [] => True | c :: _ => isspace c = false end.

(** A comment that answers another one. *)
Definition is_reply (c : Comment.t) : bool :=
  match Comment.parent_comment_id c with Some _ => true | None => false end.

(** [raises_only P m]: every exception that leaves [m] satisfies [P]. *)
Definition raises_only {A} (P : exn -> Prop) (m : M A) : Prop :=
  forall s e s', m s = (inr e, s') -> P e.

(** An exception that is not an [HTTPException] with the given status. *)
Definition not_status (st : Z) (e : exn) : Prop :=
  match e with HTTPException st' _ => st' <> st | Exception _ => True end.

(** The pagination the list handlers accept. *)
Definition valid_pagination (page limit : Z) : Prop :=
  1 <= page /\ 1 <= limit <= 100.

(** An offset the driver binds, or one that has a row behind it. *)
Definition offset_bound {A} (offset : Z) (rows : list A) : Prop :=
  sqlite_int offset = true \/ offset < len rows.

(** Every 500 answer of the handler has a detail made of the prefix and a
    text, and, for a handler that rolls back, was given after the roll
    back. *)
Definition reports_failures {A} (prefix : string) (rollback : bool) (h : M A)
  : Prop :=
  forall code db fs d,
    fst (serve code h db fs) = Error 500 d ->
    (exists text, d = lit prefix ++ text)
    /\ (rollback = true ->
        exists l, log (snd (serve code h db fs)) = l ++ [Ev_rollback; Ev_close]).

(** A failure of the first round trip whose exception prints as [text] is
    answered 500 with the prefix followed by [text]. *)
Definition surfaces_text {A} (prefix : string) (h : M A) : Prop :=
  forall code db fs text,
    fst (serve code h db (Some text :: fs)) = Error 500 (lit prefix ++ text).

(** [consumes m]: the round trips of [m] use up a prefix of the fault
    script, and a failure in that prefix is the exception [m] ends with. *)
Definition consumes {A} (m : M A) : Prop :=
  forall s r s', m s = (r, s') ->
    exists used, faults s = used ++ faults s'
                 /\ forall t, In (Some t) used -> r = inr (Exception t).

Definition surfaces_every_failure {A} (prefix : string) (h : M A) : Prop :=
  forall code db fs,
    exists used,
      fs = used ++ faults (snd (serve code h db fs))
      /\ forall t, In (Some t) used ->
           fst (serve code h db fs) = Error 500 (lit prefix ++ t).

(** How a handler treats an unexpected failure. *)
Definition failure_policy {A} (prefix : string) (rollback : bool) (h : M A)
  : Prop :=
  reports_failures prefix rollback h /\ surfaces_every_failure prefix h.

(* ================================================================== *)
(** ** Requests and the states they reach *)

Inductive request : Type :=
| Create_post (body : PostPayload.t) (now1 now2 : datetime)
| List_posts (page limit : Z)
| Get_post (post_id : Z)
| Remove_post (post_id : Z)
| List_comments (post_id page limit : Z)
| Create_comment (post_id : Z) (body : CommentPayload.t) (now1 now2 : datetime)
| Get_comment (comment_id : Z)
| Update_comment (comment_id : Z) (body : CommentUpdatePayload.t) (now : datetime)
| Remove_comment (comment_id : Z).

(** The rows after a request, whatever the database did meanwhile. *)
Definition after (rq : request) (db : DB) (fs : list (option str)) : DB :=
  match rq with
  | Create_post body now1 now2 => store (snd (Route.POST_posts body now1 now2 db fs))
  | List_posts page limit => store (snd (Route.GET_posts page limit db fs))
  | Get_post k => store (snd (Route.GET_post k db fs))
  | Remove_post k => store (snd (Route.DELETE_post k db fs))
  | List_comments k page limit =>
      store (snd (Route.GET_post_comments k page limit db fs))
  | Create_comment k body now1 now2 =>
      store (snd (Route.POST_post_comments k body now1 now2 db fs))
  | Get_comment k => store (snd (Route.GET_comment k db fs))
  | Update_comment k body now => store (snd (Route.PUT_comment k body now db fs))
  | Remove_comment k => store (snd (Route.DELETE_comment k db fs))
  end.

(** The states of the service: the empty database and what requests make
    of it. *)
Inductive reachable : DB -> Prop :=
| reach_empty : reachable empty_db
| reach_request (db : DB) (rq : request) (fs : list (option str)) :
    reachable db -> reachable (after rq db fs).

Definition replay (rqs : list request) (db : DB) : DB :=
  fold_left (fun d rq => after rq d []) rqs db.

(** Every reference to a parent comment leads to a stored comment of the
    same post. *)
Definition parents_ok (db : DB) : Prop :=
  forall c k,
    In c (comments db) -> Comment.parent_comment_id c = Some k ->
    exists p, In p (comments db) /\ Comment.id p = k
              /\ Comment.post_id p = Comment.post_id c.

(** What one request can do to the rows. *)
Inductive effect (db : DB) : DB -> Prop :=
| eff_none : effect db db
| eff_post (p : Post.t) : valid_post p -> effect db (insert_post p db)
| eff_comment (c : Comment.t) :
    valid_comment c ->
    (forall k, Comment.parent_comment_id c = Some k ->
       exists pc, find_comment k db = Some pc
                  /\ Comment.post_id pc = Comment.post_id c) ->
    effect db (insert_comment c db)
| eff_update (k : Z) (v : str) (u : datetime) :
    CommentBase.content_must_not_be_empty v = inl v ->
    effect db (update_comment_row k v u db)
| eff_delete_comment (k : Z) :
    effect db (delete_comment_row k (detach_replies k db))
| eff_delete_post (k : Z) :
    comments_of k db = [] -> effect db (delete_post_row k db).

(* ================================================================== *)
(** ** A small blog, used to exercise the handlers *)

Module Blog.
Definition post1 : Post.t :=
  Post.mk 1 (lit "A") (lit "B") (Some (lit "C")) 10 11.
Definition post2 : Post.t :=
  Post.mk 2 (lit "News") (lit "Body") (Some (lit "D")) 12 13.
Definition comment1 : Comment.t :=
  Comment.mk 1 (lit "x") (Some (lit "y")) 1 None 20 21.
Definition comment2 : Comment.t :=
  Comment.mk 2 (lit "reply") (Some (lit "z")) 1 (Some 1) 30 31.

(** Two posts; the first has a comment and a reply to it. *)
Definition db : DB := mkDB [post1; post2] [comment1; comment2].

Definition reply_to (k : Z) : CommentPayload.t :=
  CommentPayload.mk (Some (lit " again ")) (Some (lit "w")) (Some k).

(** A post body whose author is white space only. *)
Definition blank_author : PostPayload.t :=
  PostPayload.mk (Some (lit "A")) (Some (lit "B")) (Some (lit "   ")).

(** An update body with white space around the content. *)
Definition edit : CommentUpdatePayload.t :=
  CommentUpdatePayload.mk (Some (lit "  edited ")).

(** The requests that made the blog. *)
Definition history : list request :=
  [ Create_post (PostPayload.mk (Some (lit "A")) (Some (lit "B"))
                   (Some (lit "C"))) 10 11;
    Create_post (PostPayload.mk (Some (lit " News")) (Some (lit "Body "))
                   (Some (lit "D"))) 12 13;
    Create_comment 1 (CommentPayload.mk (Some (lit "x")) (Some (lit "y")) None)
      20 21;
    Create_comment 1 (CommentPayload.mk (Some (lit "reply")) (Some (lit "z"))
                        (Some 1)) 30 31 ].
End Blog.

(* ================================================================== *)
(** ** Further notions *)

(** A string made of white space only; the empty string is one. *)
Definition blank (s : str) : Prop := Forall (fun c => isspace c = true) s.

(** A string that does not end with white space. *)
Definition clean_back (s : str) : Prop := clean_front (rev s).

(** The request body that carries the fields of a validated one. *)
Definition post_payload (pd : PostCreate.t) : PostPayload.t :=
  PostPayload.mk (Some (PostCreate.title pd)) (Some (PostCreate.content pd))
    (Some (PostCreate.author pd)).

Definition comment_payload (cd : CommentCreate.t) : CommentPayload.t :=
  CommentPayload.mk (Some (CommentCreate.content cd))
    (Some (CommentCreate.author cd)) (CommentCreate.parent_comment_id cd).

Definition comment_update_payload (cu : CommentUpdate.t) : CommentUpdatePayload.t :=
  CommentUpdatePayload.mk (Some (CommentUpdate.content cu)).

(** What [PostUpdate] makes of one optional field: an omitted field stays
    omitted, a given one must not be empty once stripped and is stripped. *)
Definition cleaned (given : option str) (kept : option str) : Prop :=
  match given with
  | None => kept = None
  | Some v => strip v <> [] /\ kept = Some (strip v)
  end.

(** A comment after the comment [k] is deleted: a reply to [k] loses its
    parent, any other comment is as it was. *)
Definition detached_from (k : Z) (x : Comment.t) : Comment.t :=
  if opt_eqb (Comment.parent_comment_id x) k
  then Comment.set_parent_comment_id None x else x.

(** What one request writes, with the key of an added row and the post an
    added comment belongs to. *)
Inductive written (db : DB) : DB -> Prop :=
| wr_none : written db db
| wr_post (p : Post.t) :
    Post.id p = next_id (map Post.id (posts db)) ->
    written db (insert_post p db)
| wr_comment (c : Comment.t) (p : Post.t) :
    Comment.id c = next_id (map Comment.id (comments db)) ->
    find_post (Comment.post_id c) db = Some p ->
    written db (insert_comment c db)
| wr_update (k : Z) (v : str) (u : datetime) :
    written db (update_comment_row k v u db)
| wr_delete_comment (k : Z) :
    written db (delete_comment_row k (detach_replies k db))
| wr_delete_post (k : Z) :
    comments_of k db = [] -> written db (delete_post_row k db).

(** No two posts and no two comments have the same id. *)
Definition keys_unique (db : DB) : Prop :=
  NoDup (map Post.id (posts db)) /\ NoDup (map Comment.id (comments db)).

(** Every comment belongs to a stored post. *)
Definition posts_exist (db : DB) : Prop :=
  forall c, In c (comments db) ->
    exists p, In p (posts db) /\ Post.id p = Comment.post_id c.

(** The pages 1 to [n]. *)
Definition pages (n : nat) : list Z := map (fun i => Z.of_nat (S i)) (seq 0 n).

(** The items of a page of the list of posts; none when the answer is an
    error. *)
Definition posts_page (db : DB) (limit page : Z) : list PostResponse.t :=
  match fst (Route.GET_posts page limit db []) with
  | JSON _ r => PostListResponse.posts r
  | Error _ _ => []
  end.

Definition comments_page (db : DB) (post_id limit page : Z)
  : list CommentResponse.t :=
  match fst (Route.GET_post_comments post_id page limit db []) with
  | JSON _ r => CommentListResponse.comments r
  | Error _ _ => []
  end.






(** Rows as SQLite can hold them: the keys are 64-bit integers and a table
    has fewer than [2 ^ 63] rows. *)
Definition storable (db : DB) : Prop :=
  Forall (fun p => sqlite_int (Post.id p) = true) (posts db)
  /\ Forall (fun c => sqlite_int (Comment.id c) = true) (comments db)
  /\ len (posts db) < 2 ^ 63
  /\ len (comments db) < 2 ^ 63.

(** The exceptions a handler raises in its [try] when nothing unexpected
    happens: HTTP errors whose status is in the list. *)
Definition http_among (codes : list Z) (e : exn) : Prop :=
  match e with
  | HTTPException st _ => In st codes
  | Exception _ => True
  end.

(* ================================================================== *)
(** * Properties *)

(** ** [strip] and the validators *)

Lemma lstrip_clean_front (s : str) : clean_front (lstrip s).
Proof.
  induction s as [|c s IH]; simpl; [exact I|].
  destruct (isspace c) eqn:E; [exact IH | exact E].
Qed.

Lemma lstrip_fixed (s : str) : clean_front s -> lstrip s = s.
Proof.
  destruct s as [|c s]; simpl; [reflexivity|].
  intros ->. reflexivity.
Qed.

Lemma lstrip_suffix (s : str) : exists a, s = a ++ lstrip s.
Proof.
  induction s as [|c s [a IH]]; simpl.
  - exists []. reflexivity.
  - destruct (isspace c).
    + exists (c :: a). simpl. f_equal. exact IH.
    + exists []. reflexivity.
Qed.

Lemma rstrip_prefix (s : str) : exists b, s = rstrip s ++ b.
Proof.
  unfold rstrip. destruct (lstrip_suffix (rev s)) as [a Ha].
  exists (rev a). rewrite <- rev_app_distr, <- Ha, rev_involutive. reflexivity.
Qed.

Lemma rstrip_clean_front (s : str) : clean_front s -> clean_front (rstrip s).
Proof.
  intros H. destruct (rstrip_prefix s) as [b Hb].
  destruct (rstrip s) as [|c w]; [exact I|].
  rewrite Hb in H. exact H.
Qed.

Lemma rstrip_idempotent (s : str) : rstrip (rstrip s) = rstrip s.
Proof.
  unfold rstrip. rewrite rev_involutive.
  rewrite (lstrip_fixed (lstrip (rev s))); [reflexivity|].
  apply lstrip_clean_front.
Qed.

Lemma strip_idempotent (s : str) : strip (strip s) = strip s.
Proof.
  unfold strip.
  rewrite (lstrip_fixed (rstrip (lstrip s))).
  - apply rstrip_idempotent.
  - apply rstrip_clean_front, lstrip_clean_front.
Qed.

Lemma strip_nil : strip [] = [].
Proof. reflexivity. Qed.

(** The validator accepts exactly the values that are not empty once
    stripped, and returns them stripped. *)
Lemma must_not_be_empty_inl (msg : string) (v w : str) :
  must_not_be_empty msg v = inl w <-> strip v <> [] /\ w = strip v.
Proof.
  unfold must_not_be_empty.
  destruct v as [|c v]; simpl.
  - split; [discriminate | intros [H _]; now elim H].
  - destruct (strip (c :: v)) as [|d u]; simpl.
    + split; [discriminate | intros [H _]; now elim H].
    + split; [intros [= <-]; split; [discriminate | reflexivity]
             | intros [_ ->]; reflexivity].
Qed.

Lemma must_not_be_empty_inr (msg : string) (v : str) (m : str) :
  must_not_be_empty msg v = inr m <-> strip v = [] /\ m = lit msg.
Proof.
  unfold must_not_be_empty.
  destruct v as [|c v]; simpl.
  - split; [intros [= <-]; auto | intros [_ ->]; reflexivity].
  - destruct (strip (c :: v)) as [|d u]; simpl.
    + split; [intros [= <-]; auto | intros [_ ->]; reflexivity].
    + split; [discriminate | intros [H _]; discriminate].
Qed.

(** A value a validator has returned passes every validator unchanged. *)
Lemma must_not_be_empty_again (msg msg' : string) (v w : str) :
  must_not_be_empty msg v = inl w -> must_not_be_empty msg' w = inl w.
Proof.
  intros H. apply must_not_be_empty_inl in H as [Hne ->].
  apply must_not_be_empty_inl. rewrite strip_idempotent. auto.
Qed.

(** ** Keys and lookups *)

Lemma next_id_above (ids : list Z) (k : Z) : In k ids -> k < next_id ids.
Proof.
  unfold next_id. induction ids as [|i ids IH]; cbn [fold_right In].
  - contradiction.
  - intros [-> | H]; [lia | specialize (IH H); lia].
Qed.

Lemma find_app_fresh {A} (f : A -> bool) (l : list A) (x : A) :
  (forall y, In y l -> f y = false) -> f x = true ->
  find f (l ++ [x]) = Some x.
Proof.
  intros Hl Hx. induction l as [|y l IH]; simpl.
  - now rewrite Hx.
  - rewrite (Hl y (or_introl eq_refl)). apply IH.
    intros z Hz. apply Hl. now right.
Qed.

Lemma find_post_added (db : DB) (p : Post.t) :
  Post.id p = next_id (map Post.id (posts db)) ->
  find_post (Post.id p) (insert_post p db) = Some p.
Proof.
  intros Hk. unfold find_post, insert_post. cbn [posts]. apply find_app_fresh.
  - intros y Hy. apply Z.eqb_neq.
    pose proof (next_id_above (map Post.id (posts db)) (Post.id y)
                  (in_map Post.id _ _ Hy)). lia.
  - apply Z.eqb_refl.
Qed.

Lemma find_comment_added (db : DB) (c : Comment.t) :
  Comment.id c = next_id (map Comment.id (comments db)) ->
  find_comment (Comment.id c) (insert_comment c db) = Some c.
Proof.
  intros Hk. unfold find_comment, insert_comment. cbn [comments]. apply find_app_fresh.
  - intros y Hy. apply Z.eqb_neq.
    pose proof (next_id_above (map Comment.id (comments db)) (Comment.id y)
                  (in_map Comment.id _ _ Hy)). lia.
  - apply Z.eqb_refl.
Qed.

(** ** [ORDER BY] sorts and keeps the rows *)

Section OrderByFacts.
Context {A : Type} (le : A -> A -> bool).
Hypothesis le_total : forall a b, le a b = true \/ le b a = true.
Hypothesis le_trans : forall a b c, le a b = true -> le b c = true -> le a c = true.

Lemma insert_by_perm (x : A) (l : list A) :
  Permutation (insert_by le x l) (x :: l).
Proof.
  induction l as [|y l IH]; simpl; [reflexivity|].
  destruct (le x y); [reflexivity|].
  rewrite IH. apply perm_swap.
Qed.

Lemma order_by_perm (l : list A) : Permutation (order_by le l) l.
Proof.
  induction l as [|x l IH]; simpl; [reflexivity|].
  rewrite insert_by_perm. now constructor.
Qed.

Lemma insert_by_sorted (x : A) (l : list A) :
  StronglySorted (fun a b => le a b = true) l ->
  StronglySorted (fun a b => le a b = true) (insert_by le x l).
Proof.
  induction 1 as [|y l Hs IH Hy]; simpl.
  - constructor; constructor.
  - destruct (le x y) eqn:E.
    + constructor; [constructor; assumption|].
      constructor; [exact E|].
      eapply Forall_impl; [|exact Hy]. intros z Hz. now apply (le_trans x y z).
    + constructor; [exact IH|].
      apply (Permutation_Forall (Permutation_sym (insert_by_perm x l))).
      constructor; [|exact Hy].
      destruct (le_total x y) as [H|H]; [congruence | exact H].
Qed.

Lemma order_by_sorted (l : list A) :
  StronglySorted (fun a b => le a b = true) (order_by le l).
Proof.
  induction l as [|x l IH]; simpl; [constructor|].
  now apply insert_by_sorted.
Qed.
End OrderByFacts.

(** ** Running a handler *)

Arguments next_id : simpl never.
Arguments lit : simpl never.
Arguments str_of_int : simpl never.
Arguments strip : simpl never.
Arguments find_post : simpl never.
Arguments find_comment : simpl never.
Arguments comments_of : simpl never.
Arguments offset_limit : simpl never.
Arguments order_by : simpl never.
Arguments must_not_be_empty : simpl never.
Arguments len : simpl never.
Arguments sqlite_int : simpl never.
Arguments int_too_large : simpl never.
Arguments Z.mul : simpl never.
Arguments Z.add : simpl never.
Arguments Z.sub : simpl never.
Arguments Z.div : simpl never.
Arguments Z.of_nat : simpl never.

Ltac run1 :=
  cbv beta iota zeta delta
    [serve get_db session_close
     bind ret raise try_except lift query record enqueue round_trip
     db_get_post db_get_comment load_comments db_add_post db_add_comment
     db_set_comment db_delete_post db_delete_comment db_commit db_rollback
     db_refresh_post db_refresh_comment db_count_posts db_select_posts
     db_count_comments db_select_comments
     server_error reraise_http
     post_not_found comment_not_found check_pagination
     create_post get_posts get_post delete_post get_comments create_comment
     get_comment update_comment delete_comment negb];
  cbn [app flush apply_change fst snd store pending faults log posts comments].

Ltac run := repeat (progress run1).

Lemma validate_comment_inl (body : CommentPayload.t) (cd : CommentCreate.t) :
  CommentCreate.validate body = inl cd ->
  CommentBase.content_must_not_be_empty (CommentCreate.content cd)
    = inl (CommentCreate.content cd) /\
  CommentBase.author_must_not_be_empty (CommentCreate.author cd)
    = inl (CommentCreate.author cd).
Proof.
  unfold CommentCreate.validate, required.
  destruct (CommentPayload.content body) as [v|]; [|discriminate].
  destruct (CommentBase.content_must_not_be_empty v) as [v'|] eqn:Ev; [|discriminate].
  destruct (CommentPayload.author body) as [a|]; [|discriminate].
  destruct (CommentBase.author_must_not_be_empty a) as [a'|] eqn:Ea; [|discriminate].
  intros [= <-]. simpl. split.
  - exact (must_not_be_empty_again _ _ _ _ Ev).
  - exact (must_not_be_empty_again _ _ _ _ Ea).
Qed.

Lemma count_len {A} (cs : list A) :
  match cs with [] => 0 | _ :: _ => len cs end = len cs.
Proof. destruct cs; reflexivity. Qed.

Lemma post_response_run (db : DB) (pend : list change) (l : list event)
  (p : Post.t) :
  valid_post p ->
  post_response p (mkSession db pend [] l)
  = (inl (post_view db p), mkSession db pend [] (l ++ [Ev_load])).
Proof.
  intros (Ht & Hc & Ha). unfold post_response. run. rewrite count_len.
  unfold PostResponse.new, checked, a_string, post_view.
  rewrite Ht, Hc. destruct (Post.author p); [reflexivity | now elim Ha].
Qed.

Lemma comment_response_run (s : Session) (c : Comment.t) :
  valid_comment c -> comment_response c s = (inl (comment_view c), s).
Proof.
  intros (Hc & a & Ea & Ha). unfold comment_response. run.
  unfold CommentResponse.new, checked, comment_view. rewrite Hc, Ea, Ha.
  reflexivity.
Qed.

Lemma validate_post_cases (body : PostPayload.t) :
  match PostPayload.title body, PostPayload.content body, PostPayload.author body with
  | Some title, Some content, Some author =>
      match strip title, strip content with
      | _ :: _, _ :: _ =>
          PostCreate.validate body
          = inl (PostCreate.mk (strip title) (strip content) author)
      | _, _ => exists e, PostCreate.validate body = inr e
      end
  | _, _, _ => exists e, PostCreate.validate body = inr e
  end.
Proof.
  unfold PostCreate.validate, required.
  unfold PostBase.title_must_not_be_empty, PostBase.content_must_not_be_empty,
    must_not_be_empty.
  destruct (PostPayload.title body) as [t|].
  2:{ destruct (PostPayload.content body), (PostPayload.author body); eauto. }
  destruct (PostPayload.content body) as [c|].
  2:{ destruct (PostPayload.author body); destruct (truthy t); 
      destruct (strip t); simpl; eauto. }
  destruct (PostPayload.author body) as [a|].
  - destruct t as [|t0 t]; [ rewrite strip_nil; simpl; eauto |].
    destruct (strip (t0 :: t)) as [|x u] eqn:Et; cbn [truthy negb orb]; eauto.
    destruct c as [|c0 c]; [ rewrite strip_nil; simpl; eauto |].
    destruct (strip (c0 :: c)) as [|y w] eqn:Ec; cbn [truthy negb orb]; eauto.
  - destruct t as [|t0 t]; [ rewrite strip_nil; simpl; eauto |].
    destruct (strip (t0 :: t)) as [|x u] eqn:Et; cbn [truthy negb orb]; eauto.
    destruct c as [|c0 c]; [ rewrite strip_nil; simpl; eauto |].
    destruct (strip (c0 :: c)) as [|y w] eqn:Ec; cbn [truthy negb orb]; eauto.
Qed.


Lemma get_post_run (db : DB) (post_id : Z) (p : Post.t) :
  valid_rows db -> find_post post_id db = Some p ->
  fst (Route.GET_post post_id db []) = JSON 200 (post_view db p).
Proof.
  intros [Hv _] Hf. unfold Route.GET_post. run. rewrite Hf. run.
  rewrite post_response_run; [reflexivity|].
  unfold find_post in Hf. apply find_some in Hf as [Hin _].
  rewrite Forall_forall in Hv. now apply Hv.
Qed.

Lemma validate_post_inl (body : PostPayload.t) (pd : PostCreate.t) :
  PostCreate.validate body = inl pd ->
  PostBase.title_must_not_be_empty (PostCreate.title pd) = inl (PostCreate.title pd)
  /\ PostBase.content_must_not_be_empty (PostCreate.content pd)
     = inl (PostCreate.content pd).
Proof.
  unfold PostCreate.validate, required.
  destruct (PostPayload.title body) as [t|]; [|discriminate].
  destruct (PostBase.title_must_not_be_empty t) as [t'|] eqn:Et; [|discriminate].
  destruct (PostPayload.content body) as [c|]; [|discriminate].
  destruct (PostBase.content_must_not_be_empty c) as [c'|] eqn:Ec; [|discriminate].
  destruct (PostPayload.author body) as [a|]; [|discriminate].
  intros [= <-]. cbn [PostCreate.title PostCreate.content]. split.
  - exact (must_not_be_empty_again _ _ _ _ Et).
  - exact (must_not_be_empty_again _ _ _ _ Ec).
Qed.

Lemma create_post_run (db : DB) (pd : PostCreate.t) (now1 now2 : datetime) :
  PostBase.title_must_not_be_empty (PostCreate.title pd) = inl (PostCreate.title pd) ->
  PostBase.content_must_not_be_empty (PostCreate.content pd)
  = inl (PostCreate.content pd) ->
  fst (serve HTTP_201_CREATED (create_post pd now1 now2) db [])
  = JSON 201 (post_view db (new_post db pd now1 now2))
  /\ store (snd (serve HTTP_201_CREATED (create_post pd now1 now2) db []))
     = insert_post (new_post db pd now1 now2) db.
Proof.
  intros Ht Hc.
  assert (Hp : valid_post (new_post db pd now1 now2)).
  { repeat split; [exact Ht | exact Hc | discriminate]. }
  pose proof (find_post_added db (new_post db pd now1 now2) eq_refl) as Hnew.
  cbn [new_post Post.id] in Hnew. run.
  fold (new_post db pd now1 now2). rewrite Hnew. run.
  rewrite (post_response_run _ _ _ _ Hp). split; reflexivity.
Qed.

(* ================================================================== *)
(** ** Creating a comment *)

(** C4, as the code has it.  A comment-creation request with a valid body,
    served without a storage failure: when the post does not exist the
    answer is 404; when a parent is named and no comment has that id the
    answer is 404; when the parent exists on another post the answer is
    400.  An id that is looked up and is not a 64-bit integer is answered
    500 instead of 404.  In all these cases the rows are unchanged.
    Otherwise the answer is 201 with the new comment, whose [created_at] and
    [updated_at] are the two clock readings, and that comment is appended
    to the table. *)
Theorem create_comment_checks_post_then_parent
  (db : DB) (post_id : Z) (body : CommentPayload.t)
  (comment_data : CommentCreate.t) (now1 now2 : datetime) :
  CommentCreate.validate body = inl comment_data ->
  let r := Route.POST_post_comments post_id body now1 now2 db [] in
  let k := next_id (map Comment.id (comments db)) in
  let content := CommentCreate.content comment_data in
  let author := CommentCreate.author comment_data in
  let parent := CommentCreate.parent_comment_id comment_data in
  let created :=
    fst r = JSON 201 (CommentResponse.mk k content author post_id parent now1 now2)
    /\ store (snd r)
       = insert_comment
           (Comment.mk k content (Some author) post_id parent now1 now2) db in
  let refused st := status (fst r) = st /\ store (snd r) = db in
  match find_post post_id db with
  | None => if sqlite_int post_id then refused 404 else refused 500
  | Some _ =>
      match parent with
      | None => created
      | Some parent_id =>
          match find_comment parent_id db with
          | None => if sqlite_int parent_id then refused 404 else refused 500
          | Some parent_comment =>
              if Comment.post_id parent_comment =? post_id
              then created
              else refused 400
          end
      end
  end.
Proof.
  intros Hv. destruct (validate_comment_inl _ _ Hv) as [Hc Ha].
  unfold Route.POST_post_comments. rewrite Hv.
  assert (Hnew : forall parent,
    find_comment (next_id (map Comment.id (comments db)))
      (insert_comment
         (Comment.mk (next_id (map Comment.id (comments db)))
            (CommentCreate.content comment_data)
            (Some (CommentCreate.author comment_data)) post_id parent now1 now2)
         db)
    = Some (Comment.mk (next_id (map Comment.id (comments db)))
             (CommentCreate.content comment_data)
             (Some (CommentCreate.author comment_data)) post_id parent now1 now2)).
  { intros parent. exact (find_comment_added db (Comment.mk _ _ _ _ _ _ _) eq_refl). }
  assert (Hok : forall k parent,
    valid_comment (Comment.mk k (CommentCreate.content comment_data)
                     (Some (CommentCreate.author comment_data)) post_id parent
                     now1 now2)).
  { intros k parent. split; [exact Hc|].
    exists (CommentCreate.author comment_data). split; [reflexivity | exact Ha]. }
  run. destruct (find_post post_id db) as [p|]; run;
    [| destruct (sqlite_int post_id); run; split; reflexivity].
  destruct (CommentCreate.parent_comment_id comment_data) as [parent_id|]; run.
  - destruct (find_comment parent_id db) as [pc|]; run;
      [| destruct (sqlite_int parent_id); run; split; reflexivity].
    destruct (Comment.post_id pc =? post_id); run; [|split; reflexivity].
    rewrite Hnew. run. rewrite comment_response_run by (apply Hok).
    split; reflexivity.
  - rewrite Hnew. run. rewrite comment_response_run by (apply Hok).
    split; reflexivity.
Qed.

(** A reply, posted under the second post, to a comment of the first post
    is refused with 400 and nothing is stored. *)
Lemma create_comment_checks_post_then_parent_witness :
  status (fst (Route.POST_post_comments 2 (Blog.reply_to 1) 40 41 Blog.db [])) = 400
  /\ store (snd (Route.POST_post_comments 2 (Blog.reply_to 1) 40 41 Blog.db []))
     = Blog.db.
Proof.
  exact (create_comment_checks_post_then_parent Blog.db 2 (Blog.reply_to 1)
           (CommentCreate.mk (lit "again") (lit "w") (Some 1)) 40 41 eq_refl).
Defined.

(** C4, the claim as written fails: no post has the id [2 ^ 63], and a
    comment for it is answered 500, not 404. *)
Lemma create_comment_wide_post_id :
  find_post (2 ^ 63) Blog.db = None
  /\ status (fst (Route.POST_post_comments (2 ^ 63) (Blog.reply_to 1) 40 41
                    Blog.db [])) = 500.
Proof. vm_compute. split; reflexivity. Qed.

(* ================================================================== *)
(** ** Creating a post *)

(** C2, as the code has it.  A post-creation request served without a
    storage failure succeeds, with 201, exactly when the body has a title
    and a content that are not empty once stripped and has an author, of
    any value; the post is then stored with the stripped title and content
    and with the author as sent.  Every other body is refused with 422 and
    nothing is stored. *)
Theorem create_post_requires_title_and_content
  (db : DB) (body : PostPayload.t) (now1 now2 : datetime) :
  let r := Route.POST_posts body now1 now2 db [] in
  let k := next_id (map Post.id (posts db)) in
  let created title content author :=
    fst r = JSON 201 (PostResponse.mk k (strip title) (strip content) author
                        now1 now2 (len (comments_of k db)))
    /\ store (snd r)
       = insert_post
           (Post.mk k (strip title) (strip content) (Some author) now1 now2) db in
  let refused := status (fst r) = 422 /\ store (snd r) = db in
  match PostPayload.title body, PostPayload.content body,
        PostPayload.author body with
  | Some title, Some content, Some author =>
      match strip title, strip content with
      | _ :: _, _ :: _ => created title content author
      | _, _ => refused
      end
  | _, _, _ => refused
  end.
Proof.
  pose proof (validate_post_cases body) as Hv.
  unfold Route.POST_posts. cbv zeta.
  assert (Hrefused : forall e, PostCreate.validate body = inr e ->
    status (fst (match PostCreate.validate body with
                 | inl post_data =>
                     serve HTTP_201_CREATED (create_post post_data now1 now2)
                 | inr e => unprocessable e
                 end db [])) = 422
    /\ store (snd (match PostCreate.validate body with
                   | inl post_data =>
                       serve HTTP_201_CREATED (create_post post_data now1 now2)
                   | inr e => unprocessable e
                   end db [])) = db).
  { intros e ->. split; reflexivity. }
  destruct (PostPayload.title body) as [title|];
    [| destruct (PostPayload.content body), (PostPayload.author body);
       destruct Hv as [e He]; exact (Hrefused e He)].
  destruct (PostPayload.content body) as [content|];
    [| destruct (PostPayload.author body);
       destruct Hv as [e He]; exact (Hrefused e He)].
  destruct (PostPayload.author body) as [author|];
    [| destruct Hv as [e He]; exact (Hrefused e He)].
  destruct (strip title) as [|t0 t] eqn:Et;
    [destruct Hv as [e He]; exact (Hrefused e He)|].
  destruct (strip content) as [|c0 c] eqn:Ec;
    [destruct Hv as [e He]; exact (Hrefused e He)|].
  rewrite Hv. clear Hrefused Hv.
  pose proof (strip_idempotent title) as Ht. rewrite Et in Ht.
  pose proof (strip_idempotent content) as Hc. rewrite Ec in Hc.
  apply (create_post_run db (PostCreate.mk (t0 :: t) (c0 :: c) author)).
  - apply must_not_be_empty_inl. cbn [PostCreate.title].
    rewrite Ht. split; [discriminate | reflexivity].
  - apply must_not_be_empty_inl. cbn [PostCreate.content].
    rewrite Hc. split; [discriminate | reflexivity].
Qed.

(** C2, the claim as written fails: a body whose author is white space only
    is accepted, and the post is stored with that author. *)
Lemma create_post_blank_author_accepted :
  strip (lit "   ") = []
  /\ status (fst (Route.POST_posts Blog.blank_author 10 11 empty_db [])) = 201
  /\ posts (store (snd (Route.POST_posts Blog.blank_author 10 11 empty_db [])))
     = [Post.mk 1 (lit "A") (lit "B") (Some (lit "   ")) 10 11].
Proof. vm_compute. repeat split; reflexivity. Qed.

(* ================================================================== *)
(** ** Updating a comment *)

Lemma find_map_same_key {A} (p : A -> bool) (f : A -> A) (l : list A) :
  (forall x, p (f x) = p x) -> find p (map f l) = option_map f (find p l).
Proof.
  intros H. induction l as [|x l IH]; simpl; [reflexivity|].
  rewrite H. destruct (p x); [reflexivity | exact IH].
Qed.

Lemma find_comment_id (k : Z) (db : DB) (c : Comment.t) :
  find_comment k db = Some c -> Comment.id c = k.
Proof.
  unfold find_comment. intros H. apply find_some in H as [_ H].
  now apply Z.eqb_eq.
Qed.

Lemma find_post_id (k : Z) (db : DB) (p : Post.t) :
  find_post k db = Some p -> Post.id p = k.
Proof.
  unfold find_post. intros H. apply find_some in H as [_ H].
  now apply Z.eqb_eq.
Qed.

Lemma find_comment_updated (k : Z) (v : str) (u : datetime) (db : DB)
  (c : Comment.t) :
  find_comment k db = Some c ->
  find_comment k (update_comment_row k v u db)
  = Some (Comment.set_updated_at u (Comment.set_content v c)).
Proof.
  intros H. pose proof (find_comment_id _ _ _ H) as Hk.
  unfold find_comment, update_comment_row in *. cbn [comments].
  rewrite find_map_same_key.
  - rewrite H. cbn [option_map]. rewrite Hk, Z.eqb_refl. reflexivity.
  - intros x. destruct (Comment.id x =? k) eqn:E; [|exact E].
    cbn. exact E.
Qed.

(** C6, as the code has it.  An update of an existing comment, served
    without a storage failure.  A body whose content is missing, or empty
    once stripped, is refused with 422 and the rows are unchanged.
    Otherwise, for a comment the response schema accepts, the answer is
    200; the row keeps its id, author, post_id, parent_comment_id and
    created_at, its content is the stripped content and its updated_at is
    the clock reading of the request, whatever the previous updated_at was;
    the only statement sent writes the content and updated_at of the rows
    with that id. *)
Theorem update_comment_trims_and_stamps
  (db : DB) (comment_id : Z) (c : Comment.t) (body : CommentUpdatePayload.t)
  (now : datetime) :
  find_comment comment_id db = Some c ->
  let r := Route.PUT_comment comment_id body now db [] in
  let refused :=
    status (fst r) = 422 /\ store (snd r) = db
    /\ find_comment comment_id (store (snd r)) = Some c in
  match CommentUpdatePayload.content body with
  | None => refused
  | Some v =>
      match strip v with
      | [] => refused
      | _ :: _ =>
          valid_comment c ->
          let c' := Comment.mk (Comment.id c) (strip v) (Comment.author c)
                      (Comment.post_id c) (Comment.parent_comment_id c)
                      (Comment.created_at c) now in
          fst r = JSON 200 (comment_view c')
          /\ store (snd r) = update_comment_row comment_id (strip v) now db
          /\ find_comment comment_id (store (snd r)) = Some c'
      end
  end.
Proof.
  intros Hc. cbv zeta.
  pose proof (find_comment_id _ _ _ Hc) as Hid. subst comment_id.
  unfold Route.PUT_comment, CommentUpdate.validate, required,
    CommentUpdate.content_must_not_be_empty.
  destruct (CommentUpdatePayload.content body) as [v|];
    [| repeat split; exact Hc].
  destruct (must_not_be_empty "Content cannot be empty" v) as [w|m] eqn:Ev.
  - apply must_not_be_empty_inl in Ev as [Hne ->].
    pose proof (must_not_be_empty_inl "Content cannot be empty" (strip v) (strip v)) as Hw.
    destruct (strip v) as [|x u] eqn:Es; [now elim Hne|]. intros Hvalid.
    run. rewrite Hc. run. cbn [CommentUpdate.content].
    rewrite (find_comment_updated _ _ _ _ _ Hc). run.
    rewrite comment_response_run.
    + repeat split; try reflexivity.
      exact (find_comment_updated _ _ _ _ _ Hc).
    + destruct Hvalid as (_ & a & Ea & Ha). split.
      * cbn. apply Hw. rewrite <- Es, strip_idempotent, Es. split; [discriminate|reflexivity].
      * exists a. cbn. auto.
  - apply must_not_be_empty_inr in Ev as [-> _].
    repeat split; exact Hc.
Qed.

Lemma update_comment_trims_and_stamps_witness :
  fst (Route.PUT_comment 2 Blog.edit 35 Blog.db [])
  = JSON 200 (CommentResponse.mk 2 (lit "edited") (lit "z") 1 (Some 1) 30 35)
  /\ find_comment 2 (store (snd (Route.PUT_comment 2 Blog.edit 35 Blog.db [])))
     = Some (Comment.mk 2 (lit "edited") (Some (lit "z")) 1 (Some 1) 30 35).
Proof.
  pose proof (update_comment_trims_and_stamps Blog.db 2 Blog.comment2
                Blog.edit 35 eq_refl) as H.
  assert (Hv : valid_comment Blog.comment2).
  { split; [reflexivity|]. exists (lit "z"). split; reflexivity. }
  vm_compute in H. specialize (H Hv).
  vm_compute. destruct H as (H1 & _ & H3). split; assumption.
Defined.

(** C6, the claim as written fails: the reply of the blog was last updated
    at 31; an update made when the clock reads 5 succeeds and leaves it with
    an [updated_at] of 5, before the previous one. *)
Lemma update_comment_clock_set_back :
  option_map Comment.updated_at (find_comment 2 Blog.db) = Some 31
  /\ status (fst (Route.PUT_comment 2 Blog.edit 5 Blog.db [])) = 200
  /\ option_map Comment.updated_at
       (find_comment 2 (store (snd (Route.PUT_comment 2 Blog.edit 5 Blog.db []))))
     = Some 5.
Proof. vm_compute. repeat split; reflexivity. Qed.

(* ================================================================== *)
(** ** Ordering and paging *)


Lemma offset_limit_incl {A} (offset limit : Z) (rows : list A) :
  incl (offset_limit offset limit rows) rows.
Proof.
  unfold offset_limit. intros x Hx.
  rewrite <- (firstn_skipn (Z.to_nat offset) rows). apply in_or_app. right.
  rewrite <- (firstn_skipn (Z.to_nat limit) (skipn (Z.to_nat offset) rows)).
  apply in_or_app. now left.
Qed.

(** Past the last row there is nothing to return. *)
Lemma offset_limit_beyond {A} (offset limit : Z) (rows : list A) :
  len rows <= offset -> offset_limit offset limit rows = [].
Proof.
  unfold offset_limit, len. intros H.
  rewrite skipn_all2 by lia. apply firstn_nil.
Qed.

(** [(total + limit - 1) // limit] is the ceiling of [total / limit]. *)
Lemma total_pages_ceiling (total limit : Z) :
  0 < limit -> is_ceiling ((total + limit - 1) / limit) total limit.
Proof.
  intros Hl. unfold is_ceiling.
  pose proof (Z.div_mod (total + limit - 1) limit ltac:(lia)) as Hd.
  pose proof (Z.mod_pos_bound (total + limit - 1) limit Hl) as Hm.
  nia.
Qed.

Lemma mapM_post_response_run (db : DB) (pend : list change) (ps : list Post.t) :
  Forall valid_post ps ->
  forall l, exists l',
    mapM post_response ps (mkSession db pend [] l)
    = (inl (map (post_view db) ps), mkSession db pend [] l').
Proof.
  induction 1 as [|p ps Hp _ IH]; intros l.
  - exists l. reflexivity.
  - destruct (IH (l ++ [Ev_load])) as [l' Hl'].
    exists l'. cbn [mapM map]. unfold bind at 1.
    rewrite (post_response_run _ _ _ _ Hp).
    unfold bind at 1. rewrite Hl'. reflexivity.
Qed.

Lemma mapM_comment_response_run (s : Session) (cs : list Comment.t) :
  Forall valid_comment cs ->
  mapM comment_response cs s = (inl (map comment_view cs), s).
Proof.
  induction 1 as [|c cs Hc _ IH].
  - reflexivity.
  - cbn [mapM map]. unfold bind at 1.
    rewrite (comment_response_run _ _ Hc).
    unfold bind at 1. rewrite IH. reflexivity.
Qed.

Lemma comments_of_valid (db : DB) (k : Z) :
  valid_rows db -> Forall valid_comment (comments_of k db).
Proof.
  intros [_ H]. unfold comments_of.
  eapply incl_Forall; [|exact H]. apply incl_filter.
Qed.

Lemma order_by_valid {A} (le : A -> A -> bool) (P : A -> Prop) (l : list A) :
  Forall P l -> Forall P (order_by le l).
Proof.
  apply Permutation_Forall, Permutation_sym, order_by_perm.
Qed.

Lemma offset_limit_valid {A} (P : A -> Prop) (offset limit : Z) (l : list A) :
  Forall P l -> Forall P (offset_limit offset limit l).
Proof. apply incl_Forall, offset_limit_incl. Qed.

Lemma order_by_len {A} (le : A -> A -> bool) (l : list A) :
  len (order_by le l) = len l.
Proof. unfold len. f_equal. apply Permutation_length, order_by_perm. Qed.

Lemma sqlite_int_spec (k : Z) :
  sqlite_int k = true <-> - 2 ^ 63 <= k < 2 ^ 63.
Proof. unfold sqlite_int. rewrite andb_true_iff, Z.leb_le, Z.ltb_lt. tauto. Qed.

Lemma offset_bound_small {A} (page limit : Z) (rows : list A) :
  1 <= page -> 1 <= limit -> (page - 1) * limit < 2 ^ 63 ->
  offset_bound ((page - 1) * limit) rows.
Proof. intros Hp Hl Ho. left. apply sqlite_int_spec. nia. Qed.

(** An offset is bound by the driver or has a row behind it, or else is
    past the 64-bit integers and past the rows. *)
Lemma offset_cases {A} (page limit : Z) (rows : list A) :
  1 <= page -> 1 <= limit ->
  offset_bound ((page - 1) * limit) rows
  \/ (2 ^ 63 <= (page - 1) * limit /\ len rows <= (page - 1) * limit).
Proof.
  intros Hp Hl.
  destruct (Z.lt_ge_cases ((page - 1) * limit) (2 ^ 63)) as [Hs|Hs].
  - left. apply offset_bound_small; assumption.
  - destruct (Z.lt_ge_cases ((page - 1) * limit) (len rows)) as [Hlt|Hge].
    + left. now right.
    + right. split; assumption.
Qed.

(** A page that starts before the last row is not empty. *)
Lemma offset_limit_found {A} (offset limit : Z) (rows : list A) :
  1 <= limit -> 0 <= offset < len rows -> offset_limit offset limit rows <> [].
Proof.
  unfold offset_limit, len. intros Hl Ho E.
  apply (f_equal (@List.length A)) in E.
  rewrite length_firstn, length_skipn in E. cbn [List.length] in E. lia.
Qed.

(** The list of posts, served without a storage failure from rows the
    schemas accept. *)
Lemma get_posts_run (db : DB) (page limit : Z) :
  1 <= page -> 1 <= limit <= 100 -> valid_rows db ->
  offset_bound ((page - 1) * limit) (posts db) ->
  fst (Route.GET_posts page limit db [])
  = JSON 200
      (PostListResponse.mk
         (map (post_view db)
            (offset_limit ((page - 1) * limit) limit
               (order_by post_created_desc (posts db))))
         (len (posts db)) page limit
         ((len (posts db) + limit - 1) / limit)).
Proof.
  intros Hp Hl Hv Ho. unfold Route.GET_posts. run.
  destruct (page <? 1) eqn:E1; [apply Z.ltb_lt in E1; lia|].
  destruct (limit <? 1) eqn:E2; [apply Z.ltb_lt in E2; lia|].
  destruct (limit >? 100) eqn:E3; [apply Z.gtb_lt in E3; lia|].
  cbn [orb]. run.
  assert (Hrows : Forall valid_post
                    (offset_limit ((page - 1) * limit) limit
                       (order_by post_created_desc (posts db)))).
  { apply offset_limit_valid, order_by_valid, Hv. }
  pose proof (offset_limit_found ((page - 1) * limit) limit
                (order_by post_created_desc (posts db))) as Hfound.
  rewrite order_by_len in Hfound.
  destruct (offset_limit ((page - 1) * limit) limit
              (order_by post_created_desc (posts db))) as [|x rows].
  - destruct (sqlite_int ((page - 1) * limit)) eqn:Es; [reflexivity|].
    destruct Ho as [Ho|Ho]; [congruence|]. exfalso. apply Hfound; [lia|nia|reflexivity].
  - run.
    destruct (mapM_post_response_run db [] (x :: rows) Hrows [Ev_exec; Ev_exec])
      as [l' Hl'].
    rewrite Hl'. reflexivity.
Qed.

Lemma get_comments_run (db : DB) (post_id page limit : Z) (p : Post.t) :
  1 <= page -> 1 <= limit <= 100 -> valid_rows db ->
  find_post post_id db = Some p ->
  offset_bound ((page - 1) * limit) (comments_of post_id db) ->
  fst (Route.GET_post_comments post_id page limit db [])
  = JSON 200
      (CommentListResponse.mk
         (map comment_view
            (offset_limit ((page - 1) * limit) limit
               (order_by comment_created_asc (comments_of post_id db))))
         (len (comments_of post_id db)) page limit
         ((len (comments_of post_id db) + limit - 1) / limit)).
Proof.
  intros Hp Hl Hv Hf Ho. unfold Route.GET_post_comments. run.
  destruct (page <? 1) eqn:E1; [apply Z.ltb_lt in E1; lia|].
  destruct (limit <? 1) eqn:E2; [apply Z.ltb_lt in E2; lia|].
  destruct (limit >? 100) eqn:E3; [apply Z.gtb_lt in E3; lia|].
  cbn [orb]. run. rewrite Hf. run.
  assert (Hrows : Forall valid_comment
                    (offset_limit ((page - 1) * limit) limit
                       (order_by comment_created_asc (comments_of post_id db)))).
  { apply offset_limit_valid, order_by_valid, comments_of_valid, Hv. }
  pose proof (offset_limit_found ((page - 1) * limit) limit
                (order_by comment_created_asc (comments_of post_id db))) as Hfound.
  rewrite order_by_len in Hfound.
  destruct (offset_limit ((page - 1) * limit) limit
              (order_by comment_created_asc (comments_of post_id db))) as [|x rows].
  - destruct (sqlite_int ((page - 1) * limit)) eqn:Es; [reflexivity|].
    destruct Ho as [Ho|Ho]; [congruence|]. exfalso. apply Hfound; [lia|nia|reflexivity].
  - run. rewrite (mapM_comment_response_run _ _ Hrows). reflexivity.
Qed.

(** An offset that is not a 64-bit integer, past the rows: the statement is
    refused and the route answers 500. *)
Lemma get_posts_wide_offset (db : DB) (page limit : Z) :
  1 <= page -> 1 <= limit <= 100 ->
  2 ^ 63 <= (page - 1) * limit -> len (posts db) <= (page - 1) * limit ->
  fst (Route.GET_posts page limit db [])
  = Error 500 (lit "Failed to fetch posts: " ++ int_too_large).
Proof.
  intros Hp Hl Hw Hn. unfold Route.GET_posts. run.
  destruct (page <? 1) eqn:E1; [apply Z.ltb_lt in E1; lia|].
  destruct (limit <? 1) eqn:E2; [apply Z.ltb_lt in E2; lia|].
  destruct (limit >? 100) eqn:E3; [apply Z.gtb_lt in E3; lia|].
  cbn [orb]. run.
  rewrite offset_limit_beyond by (rewrite order_by_len; exact Hn).
  destruct (sqlite_int ((page - 1) * limit)) eqn:Es; [|reflexivity].
  apply sqlite_int_spec in Es. lia.
Qed.

Lemma get_comments_wide_offset (db : DB) (post_id page limit : Z) (p : Post.t) :
  1 <= page -> 1 <= limit <= 100 -> find_post post_id db = Some p ->
  2 ^ 63 <= (page - 1) * limit ->
  len (comments_of post_id db) <= (page - 1) * limit ->
  fst (Route.GET_post_comments post_id page limit db [])
  = Error 500 (lit "Failed to fetch comments: " ++ int_too_large).
Proof.
  intros Hp Hl Hf Hw Hn. unfold Route.GET_post_comments. run.
  destruct (page <? 1) eqn:E1; [apply Z.ltb_lt in E1; lia|].
  destruct (limit <? 1) eqn:E2; [apply Z.ltb_lt in E2; lia|].
  destruct (limit >? 100) eqn:E3; [apply Z.gtb_lt in E3; lia|].
  cbn [orb]. run. rewrite Hf. run.
  rewrite offset_limit_beyond by (rewrite order_by_len; exact Hn).
  destruct (sqlite_int ((page - 1) * limit)) eqn:Es; [|reflexivity].
  apply sqlite_int_spec in Es. lia.
Qed.

(* ================================================================== *)
(** ** Listing posts and comments *)

Lemma StronglySorted_impl {A} (R S : A -> A -> Prop) (l : list A) :
  (forall a b, R a b -> S a b) -> StronglySorted R l -> StronglySorted S l.
Proof.
  intros H. induction 1 as [|x l _ IH Hx]; constructor; [exact IH|].
  eapply Forall_impl; [|exact Hx]. intros y. apply H.
Qed.

Lemma beyond_last_page (q total page limit : Z) :
  0 < limit -> is_ceiling q total limit -> q < page ->
  total <= (page - 1) * limit.
Proof.
  unfold is_ceiling. intros Hl [_ H] Hq.
  assert (q * limit <= (page - 1) * limit)
    by (apply Z.mul_le_mono_nonneg_r; lia).
  lia.
Qed.

(** C7, as the code has it.  With a valid page and limit whose offset
    [(page - 1) * limit] is below [2 ^ 63], and no storage failure, both
    list routes answer 200; [total] is the number of all matching rows
    (every post; every comment of the post), [total_pages] is the ceiling
    of [total / limit], and a page past [total_pages] has no items. *)
Theorem list_total_pages_is_ceiling (db : DB) (page limit : Z) :
  1 <= page -> 1 <= limit <= 100 -> valid_rows db ->
  (page - 1) * limit < 2 ^ 63 ->
  (exists items total_pages,
     fst (Route.GET_posts page limit db [])
     = JSON 200 (PostListResponse.mk items (Z.of_nat (List.length (posts db)))
                   page limit total_pages)
     /\ is_ceiling total_pages (Z.of_nat (List.length (posts db))) limit
     /\ (total_pages < page -> items = []))
  /\ (forall post_id p, find_post post_id db = Some p ->
      let total :=
        Z.of_nat (List.length
                    (filter (fun c => Comment.post_id c =? post_id) (comments db))) in
      exists items total_pages,
        fst (Route.GET_post_comments post_id page limit db [])
        = JSON 200 (CommentListResponse.mk items total page limit total_pages)
        /\ is_ceiling total_pages total limit
        /\ (total_pages < page -> items = [])).
Proof.
  intros Hp Hl Hv Ho. split.
  - eexists _, _.
    split; [apply (get_posts_run db page limit Hp Hl Hv);
            apply offset_bound_small; lia|].
    pose proof (total_pages_ceiling (len (posts db)) limit ltac:(lia)) as Hc.
    split; [exact Hc|]. intros Hbeyond.
    rewrite offset_limit_beyond; [reflexivity|]. rewrite order_by_len.
    eapply beyond_last_page; [| exact Hc | exact Hbeyond]; lia.
  - intros post_id p Hf total. eexists _, _.
    split; [apply (get_comments_run db post_id page limit p Hp Hl Hv Hf);
            apply offset_bound_small; lia|].
    pose proof (total_pages_ceiling (len (comments_of post_id db)) limit
                  ltac:(lia)) as Hc.
    split; [exact Hc|]. intros Hbeyond.
    rewrite offset_limit_beyond; [reflexivity|]. rewrite order_by_len.
    eapply beyond_last_page; [| exact Hc | exact Hbeyond]; lia.
Qed.

Lemma blog_valid_rows : valid_rows Blog.db.
Proof.
  split; repeat constructor; try discriminate.
  - exists (lit "y"). split; reflexivity.
  - exists (lit "z"). split; reflexivity.
Qed.

(** Two posts, one per page: two pages, and nothing on the third. *)
Lemma list_total_pages_is_ceiling_witness :
  fst (Route.GET_posts 3 1 Blog.db [])
  = JSON 200 (PostListResponse.mk [] 2 3 1 2).
Proof.
  destruct (list_total_pages_is_ceiling Blog.db 3 1 ltac:(lia) ltac:(lia)
              blog_valid_rows ltac:(lia)) as [(items & tp & H & _ & _) _].
  vm_compute in H |- *. reflexivity.
Defined.

(** C7, the claim as written fails: the blog has two posts, so with a limit
    of 1 the page [2 ^ 63 + 1] is a valid page past the two pages; its
    offset is [2 ^ 63], and the answer is an error, 500. *)
Lemma list_posts_wide_page :
  valid_pagination (2 ^ 63 + 1) 1
  /\ fst (Route.GET_posts 3 1 Blog.db [])
     = JSON 200 (PostListResponse.mk [] 2 3 1 2)
  /\ status (fst (Route.GET_posts (2 ^ 63 + 1) 1 Blog.db [])) = 500.
Proof.
  split; [unfold valid_pagination; lia|]. split; [vm_compute; reflexivity|].
  rewrite get_posts_wide_offset; [reflexivity | | | |];
    unfold len; cbn [Blog.db posts List.length]; lia.
Qed.

(** C8, as the code has it.  With a valid page and limit whose offset
    [(page - 1) * limit] is below [2 ^ 63], and no storage failure: the
    posts returned are the rows at that offset, at most [limit] of them, of
    all the posts put in descending order of [created_at]; the comments
    returned for a post are the rows at the same offset of the comments of
    that post put in ascending order of [created_at]. *)
Theorem lists_are_ordered_and_offset (db : DB) (page limit : Z) :
  1 <= page -> 1 <= limit <= 100 -> valid_rows db ->
  (page - 1) * limit < 2 ^ 63 ->
  (exists sorted total total_pages,
     Permutation sorted (posts db)
     /\ StronglySorted (fun a b => Post.created_at a >= Post.created_at b) sorted
     /\ fst (Route.GET_posts page limit db [])
        = JSON 200
            (PostListResponse.mk
               (map (post_view db)
                  (firstn (Z.to_nat limit)
                     (skipn (Z.to_nat ((page - 1) * limit)) sorted)))
               total page limit total_pages))
  /\ (forall post_id p, find_post post_id db = Some p ->
      exists sorted total total_pages,
        Permutation sorted
          (filter (fun c => Comment.post_id c =? post_id) (comments db))
        /\ StronglySorted
             (fun a b => Comment.created_at a <= Comment.created_at b) sorted
        /\ fst (Route.GET_post_comments post_id page limit db [])
           = JSON 200
               (CommentListResponse.mk
                  (map comment_view
                     (firstn (Z.to_nat limit)
                        (skipn (Z.to_nat ((page - 1) * limit)) sorted)))
                  total page limit total_pages)).
Proof.
  intros Hp Hl Hv Ho. split.
  - exists (order_by post_created_desc (posts db)). eexists _, _.
    split; [apply order_by_perm|]. split.
    + eapply StronglySorted_impl; [| apply order_by_sorted].
      * intros a b H. unfold post_created_desc in H. apply Z.leb_le in H. lia.
      * intros a b. unfold post_created_desc. rewrite !Z.leb_le. lia.
      * intros a b c. unfold post_created_desc. rewrite !Z.leb_le. lia.
    + apply (get_posts_run db page limit Hp Hl Hv).
      apply offset_bound_small; lia.
  - intros post_id p Hf.
    exists (order_by comment_created_asc (comments_of post_id db)). eexists _, _.
    split; [apply order_by_perm|]. split.
    + eapply StronglySorted_impl; [| apply order_by_sorted].
      * intros a b H. unfold comment_created_asc in H. now apply Z.leb_le in H.
      * intros a b. unfold comment_created_asc. rewrite !Z.leb_le. lia.
      * intros a b c. unfold comment_created_asc. rewrite !Z.leb_le. lia.
    + apply (get_comments_run db post_id page limit p Hp Hl Hv Hf).
      apply offset_bound_small; lia.
Qed.

(** The second page of one: the older of the two posts. *)
Lemma lists_are_ordered_and_offset_witness :
  exists total total_pages,
    fst (Route.GET_posts 2 1 Blog.db [])
    = JSON 200 (PostListResponse.mk [post_view Blog.db Blog.post1]
                  total 2 1 total_pages).
Proof.
  destruct (lists_are_ordered_and_offset Blog.db 2 1 ltac:(lia) ltac:(lia)
              blog_valid_rows ltac:(lia))
    as [(sorted & total & tp & _ & _ & H) _].
  exists 2, 2. vm_compute in H |- *. reflexivity.
Defined.

(** C8, the claim as written fails: the first post of the blog is stored,
    and with a limit of 1 the page [2 ^ 63 + 1] of its comments is a valid
    page; its offset is [2 ^ 63], and the answer is an error, 500, not the
    rows at that offset. *)
Lemma list_comments_wide_page :
  valid_pagination (2 ^ 63 + 1) 1
  /\ find_post 1 Blog.db = Some Blog.post1
  /\ status (fst (Route.GET_post_comments 1 (2 ^ 63 + 1) 1 Blog.db [])) = 500.
Proof.
  split; [unfold valid_pagination; lia|]. split; [reflexivity|].
  rewrite (get_comments_wide_offset Blog.db 1 (2 ^ 63 + 1) 1 Blog.post1);
    try reflexivity; try lia.
  change (len (comments_of 1 Blog.db)) with 2. lia.
Qed.

(* ================================================================== *)
(** ** The comment count of a post *)

Lemma filter_split_length {A} (f g : A -> bool) (l : list A) :
  List.length (filter f l)
  = (List.length (filter (fun x => f x && g x) l)
     + List.length (filter (fun x => f x && negb (g x)) l))%nat.
Proof.
  induction l as [|x l IH]; simpl; [reflexivity|].
  destruct (f x), (g x); simpl; lia.
Qed.

(** Whatever the page, the posts the list route returns are stored posts,
    shown with the number of their comments. *)
Lemma get_posts_returned (db : DB) (page limit st : Z)
  (resp : PostListResponse.t) :
  valid_rows db ->
  fst (Route.GET_posts page limit db []) = JSON st resp ->
  Forall (fun r => PostResponse.comments_count r
                   = len (comments_of (PostResponse.id r) db))
    (PostListResponse.posts resp).
Proof.
  intros Hv Hr.
  assert (Hp : 1 <= page /\ 1 <= limit <= 100).
  { unfold Route.GET_posts in Hr. revert Hr. run.
    destruct (page <? 1) eqn:E1; [discriminate|].
    destruct (limit <? 1) eqn:E2; [discriminate|].
    destruct (limit >? 100) eqn:E3; [discriminate|].
    intros _. apply Z.ltb_ge in E1, E2. rewrite Z.gtb_ltb in E3.
    apply Z.ltb_ge in E3. lia. }
  destruct Hp as [Hp Hl].
  destruct (offset_cases page limit (posts db) Hp ltac:(lia)) as [Ho|[Hw Hn]].
  - rewrite (get_posts_run db page limit Hp Hl Hv Ho) in Hr.
    injection Hr as _ <-. cbn [PostListResponse.posts].
    apply Forall_map, Forall_forall. intros p _. reflexivity.
  - rewrite (get_posts_wide_offset db page limit Hp Hl Hw Hn) in Hr.
    discriminate.
Qed.

(** C10.  Without a storage failure and on rows the schemas accept, the
    [comments_count] of a post returned by the get route, of every post
    returned by the list route, and of the post returned by the create
    route is the number of stored comments whose [post_id] is the id of the
    post; that number counts the replies as well as the top-level
    comments.  The list route returns posts for a valid page and limit
    whose offset is below [2 ^ 63]; whenever it returns posts, on any page,
    their counts are these numbers. *)
Theorem comments_count_counts_every_comment (db : DB) :
  valid_rows db ->
  let count k :=
    Z.of_nat (List.length
                (filter (fun c => Comment.post_id c =? k) (comments db))) in
  (forall post_id p, find_post post_id db = Some p ->
     exists resp,
       fst (Route.GET_post post_id db []) = JSON 200 resp
       /\ PostResponse.id resp = post_id
       /\ PostResponse.comments_count resp = count post_id)
  /\ (forall page limit, 1 <= page -> 1 <= limit <= 100 ->
      (page - 1) * limit < 2 ^ 63 ->
      exists resp,
        fst (Route.GET_posts page limit db []) = JSON 200 resp
        /\ Forall (fun r => PostResponse.comments_count r
                            = count (PostResponse.id r))
             (PostListResponse.posts resp))
  /\ (forall page limit st resp,
      fst (Route.GET_posts page limit db []) = JSON st resp ->
      Forall (fun r => PostResponse.comments_count r
                       = count (PostResponse.id r))
        (PostListResponse.posts resp))
  /\ (forall body post_data now1 now2,
      PostCreate.validate body = inl post_data ->
      exists resp,
        fst (Route.POST_posts body now1 now2 db []) = JSON 201 resp
        /\ PostResponse.comments_count resp = count (PostResponse.id resp))
  /\ (forall k,
      count k
      = Z.of_nat (List.length
                    (filter (fun c => (Comment.post_id c =? k) && is_reply c)
                       (comments db)))
        + Z.of_nat (List.length
                      (filter (fun c => (Comment.post_id c =? k)
                                        && negb (is_reply c))
                         (comments db)))).
Proof.
  intros Hv count. repeat split.
  - intros post_id p Hf. exists (post_view db p).
    split; [exact (get_post_run db post_id p Hv Hf)|].
    rewrite <- (find_post_id _ _ _ Hf). split; reflexivity.
  - intros page limit Hp Hl Ho. eexists.
    split; [apply (get_posts_run db page limit Hp Hl Hv);
            apply offset_bound_small; lia|].
    cbn [PostListResponse.posts]. apply Forall_map, Forall_forall.
    intros p _. reflexivity.
  - intros page limit st resp Hr.
    apply (get_posts_returned db page limit st resp Hv Hr).
  - intros body pd now1 now2 Hb. exists (post_view db (new_post db pd now1 now2)).
    unfold Route.POST_posts. rewrite Hb.
    destruct (validate_post_inl _ _ Hb) as [Ht Hc].
    split; [exact (proj1 (create_post_run db pd now1 now2 Ht Hc)) | reflexivity].
  - intros k. unfold count.
    rewrite (filter_split_length (fun c => Comment.post_id c =? k) is_reply).
    lia.
Qed.

(** The first post of the blog has a comment and a reply: its count is 2. *)
Lemma comments_count_counts_every_comment_witness :
  exists resp,
    fst (Route.GET_post 1 Blog.db []) = JSON 200 resp
    /\ PostResponse.comments_count resp = 2.
Proof.
  destruct (comments_count_counts_every_comment Blog.db blog_valid_rows)
    as (Hget & _).
  destruct (Hget 1 Blog.post1 eq_refl) as (resp & H1 & _ & H2).
  exists resp. split; [exact H1 | exact H2].
Defined.

(* ================================================================== *)
(** ** What a handler can raise *)

Section Raises.
Context (P : exn -> Prop).
Hypothesis P_unexpected : forall text, P (Exception text).

Lemma raises_ret {A} (a : A) : raises_only P (ret a).
Proof. intros s e s' H. discriminate. Qed.

Lemma raises_raise {A} (e : exn) : P e -> raises_only P (@raise A e).
Proof. intros He s e' s' [= <- _]. exact He. Qed.

Lemma raises_bind {A B} (m : M A) (k : A -> M B) :
  raises_only P m -> (forall a, raises_only P (k a)) ->
  raises_only P (bind m k).
Proof.
  intros Hm Hk s e s'. unfold bind.
  destruct (m s) as [[a|e0] s0] eqn:E.
  - apply Hk.
  - intros [= <- _]. exact (Hm _ _ _ E).
Qed.

Lemma raises_query {A} (f : DB -> A) : raises_only P (query f).
Proof. intros s e s' H. discriminate. Qed.

Lemma raises_record (ev : event) : raises_only P (record ev).
Proof. intros s e s' H. discriminate. Qed.

Lemma raises_enqueue (c : change) : raises_only P (enqueue c).
Proof. intros s e s' H. discriminate. Qed.

Lemma raises_round_trip (ev : event) : raises_only P (round_trip ev).
Proof.
  intros s e s'. unfold round_trip.
  destruct (faults s) as [|[text|] fs]; try discriminate.
  intros [= <- _]. apply P_unexpected.
Qed.

Lemma raises_lift {A} (r : A + exn) :
  (forall e, r = inr e -> P e) -> raises_only P (lift r).
Proof. intros H s e s' [= -> _]. now apply H. Qed.

Lemma raises_mapM {A B} (f : A -> M B) (l : list A) :
  (forall a, raises_only P (f a)) -> raises_only P (mapM f l).
Proof.
  intros Hf. induction l as [|x l IH]; cbn [mapM].
  - apply raises_ret.
  - apply raises_bind; [apply Hf|]. intros y.
    apply raises_bind; [exact IH|]. intros ys. apply raises_ret.
Qed.

Lemma raises_commit : raises_only P db_commit.
Proof.
  apply raises_bind; [apply raises_round_trip|]. intros _ s e s'.
  destruct (flush (pending s) (store s)); [discriminate|].
  intros [= <- _]. apply P_unexpected.
Qed.

Lemma raises_post_response (p : Post.t) : raises_only P (post_response p).
Proof.
  apply raises_bind; [apply raises_bind;
                      [apply raises_round_trip | intros; apply raises_query]|].
  intros cs. apply raises_lift. intros e.
  unfold PostResponse.new, checked, a_string.
  repeat match goal with
         | |- context [match ?x with _ => _ end] => destruct x
         end; intros [= <-]; apply P_unexpected.
Qed.

Lemma raises_comment_response (c : Comment.t) :
  raises_only P (comment_response c).
Proof.
  apply raises_lift. intros e.
  unfold CommentResponse.new, checked.
  repeat match goal with
         | |- context [match ?x with _ => _ end] => destruct x
         end; intros [= <-]; apply P_unexpected.
Qed.
End Raises.

Ltac raises :=
  unfold db_get_post, db_get_comment, load_comments, db_add_post,
    db_add_comment, db_set_comment, db_delete_post, db_delete_comment,
    db_refresh_post, db_refresh_comment, db_count_posts, db_select_posts,
    db_count_comments, db_select_comments, post_not_found, comment_not_found;
  repeat first
    [ apply raises_ret
    | apply raises_query
    | apply raises_record
    | apply raises_enqueue
    | apply raises_round_trip
    | apply raises_commit
    | apply raises_post_response
    | apply raises_comment_response
    | apply raises_mapM; intros
    | apply raises_bind; [|intros]
    | match goal with
      | |- raises_only _ (match ?x with _ => _ end) => destruct x
      | |- raises_only _ (if ?x then _ else _) => destruct x
      end
    | apply raises_raise;
      solve [cbn; unfold HTTP_404_NOT_FOUND, HTTP_400_BAD_REQUEST;
             first [lia | auto]]
    | assumption ].

Lemma not_status_unexpected (st : Z) (text : str) : not_status st (Exception text).
Proof. exact I. Qed.

Lemma check_pagination_ok (page limit : Z) (s : Session) :
  valid_pagination page limit -> check_pagination page limit s = (inl tt, s).
Proof.
  intros [Hp Hl]. unfold check_pagination.
  destruct (page <? 1) eqn:E1; [apply Z.ltb_lt in E1; lia|].
  destruct (limit <? 1) eqn:E2; [apply Z.ltb_lt in E2; lia|].
  destruct (limit >? 100) eqn:E3; [apply Z.gtb_lt in E3; lia|].
  reflexivity.
Qed.

Lemma check_pagination_bad (page limit : Z) (s : Session) :
  ~ valid_pagination page limit ->
  exists d, check_pagination page limit s
            = (inr (HTTPException HTTP_400_BAD_REQUEST d), s).
Proof.
  intros Hbad. unfold check_pagination, valid_pagination in *.
  destruct (page <? 1) eqn:E1; [eexists; reflexivity|].
  destruct (limit <? 1) eqn:E2; [eexists; reflexivity|].
  destruct (limit >? 100) eqn:E3; [eexists; reflexivity|].
  apply Z.ltb_ge in E1, E2. rewrite Z.gtb_ltb in E3. apply Z.ltb_ge in E3. lia.
Qed.

(** How a request ends when the handler is a [try] whose handlers are
    [except HTTPException: raise] and [except Exception as e]. *)
Lemma serve_try_reraise {A} (P : exn -> Prop) (code : Z) (body : M A)
  (rollback : bool) (prefix : string) (db : DB) (fs : list (option str)) :
  raises_only P body ->
  let r := serve code (try_except body (reraise_http rollback prefix)) db fs in
  (exists a, fst r = JSON code a)
  \/ (exists st d, fst r = Error st d /\ P (HTTPException st d))
  \/ (exists text,
        fst r = Error 500 (lit prefix ++ text)
        /\ (rollback = true ->
            pending (snd r) = []
            /\ exists l, log (snd r) = l ++ [Ev_rollback; Ev_close])).
Proof.
  intros Hbody. unfold serve, try_except.
  destruct (body (get_db db fs)) as [[a|[st d|text]] s] eqn:E.
  - left. eexists. reflexivity.
  - right. left. exists st, d. split; [reflexivity | exact (Hbody _ _ _ E)].
  - right. right. exists text. destruct rollback.
    + split; [reflexivity|]. intros _. split; [reflexivity|]. exists (log s).
      cbn. rewrite <- app_assoc. reflexivity.
    + split; [reflexivity | discriminate].
Qed.

(** The same when the only handler is [except Exception as e]. *)
Lemma serve_try_catch_all {A} (code : Z) (body : M A)
  (rollback : bool) (prefix : string) (db : DB) (fs : list (option str)) :
  let r := serve code (try_except body (server_error rollback prefix)) db fs in
  (exists a, fst r = JSON code a)
  \/ (exists text,
        fst r = Error 500 (lit prefix ++ text)
        /\ (rollback = true ->
            pending (snd r) = []
            /\ exists l, log (snd r) = l ++ [Ev_rollback; Ev_close])).
Proof.
  unfold serve, try_except.
  destruct (body (get_db db fs)) as [[a|e] s] eqn:E.
  - left. eexists. reflexivity.
  - right. exists (str_exn e). destruct rollback.
    + split; [reflexivity|]. intros _. split; [reflexivity|]. exists (log s).
      cbn. rewrite <- app_assoc. reflexivity.
    + split; [reflexivity | discriminate].
Qed.

Lemma serve_checked {A} (code page limit : Z) (m : M A) (db : DB)
  (fs : list (option str)) :
  valid_pagination page limit ->
  serve code (check_pagination page limit ;;; m) db fs = serve code m db fs.
Proof.
  intros H. unfold serve, bind. rewrite (check_pagination_ok _ _ _ H).
  reflexivity.
Qed.

Lemma serve_unchecked {A} (code page limit : Z) (m : M A) (db : DB)
  (fs : list (option str)) :
  ~ valid_pagination page limit ->
  exists d, serve code (check_pagination page limit ;;; m) db fs
            = (Error 400 d, mkSession db [] fs [Ev_close]).
Proof.
  intros H. destruct (check_pagination_bad page limit (get_db db fs) H) as [d Hd].
  exists d. unfold serve, bind. rewrite Hd. reflexivity.
Qed.

(* ================================================================== *)
(** ** Pagination is checked first *)

(** C9.  Whatever the rows and whatever the database does, each list route
    answers 400 exactly when [page < 1], [limit < 1] or [limit > 100]; the
    answer is then given without a call on the session: no lookup of the
    post, no round trip to the database. *)
Theorem pagination_checked_first (db : DB) (fs : list (option str))
  (post_id page limit : Z) :
  let bad := page < 1 \/ limit < 1 \/ limit > 100 in
  let posts_r := Route.GET_posts page limit db fs in
  let comments_r := Route.GET_post_comments post_id page limit db fs in
  (status (fst posts_r) = 400 <-> bad)
  /\ (status (fst comments_r) = 400 <-> bad)
  /\ (bad -> log (snd posts_r) = [Ev_close] /\ faults (snd posts_r) = fs
             /\ log (snd comments_r) = [Ev_close] /\ faults (snd comments_r) = fs).
Proof.
  cbv zeta. unfold Route.GET_posts, Route.GET_post_comments, get_posts, get_comments.
  assert (Hcases : valid_pagination page limit
                   \/ (~ valid_pagination page limit
                       /\ (page < 1 \/ limit < 1 \/ limit > 100)))
    by (unfold valid_pagination; lia).
  destruct Hcases as [Hok | [Hbad Hdisj]].
  - rewrite !(serve_checked _ _ _ _ _ _ Hok).
    assert (Hnot : ~ (page < 1 \/ limit < 1 \/ limit > 100))
      by (unfold valid_pagination in Hok; lia).
    repeat split; try (intros; exfalso; apply Hnot; assumption).
    + intros H. exfalso. revert H.
      match goal with
      | |- context [serve ?c (try_except ?b _) ?d ?f] =>
          destruct (serve_try_catch_all c b false "Failed to fetch posts: " d f)
            as [[a ->] | [text [-> _]]]
      end; discriminate.
    + intros H. exfalso. revert H.
      match goal with
      | |- context [serve ?c (try_except ?b _) ?d ?f] =>
          destruct (serve_try_reraise (not_status 400) c b false
                      "Failed to fetch comments: " d f)
            as [[a ->] | [(st & d' & -> & Hst) | [text [-> _]]]]
      end; try discriminate.
      * pose proof (not_status_unexpected 400) as Hu. raises.
      * cbn. exact Hst.
  - destruct (serve_unchecked HTTP_200_OK page limit
                (try_except
                   (let offset := (page - 1) * limit in
                    total <- db_count_posts ;;
                    posts <- db_select_posts offset limit ;;
                    post_responses <- mapM post_response posts ;;
                    let total_pages := (total + limit - 1) / limit in
                    ret (PostListResponse.mk post_responses total page limit
                           total_pages))
                   (server_error false "Failed to fetch posts: ")) db fs Hbad)
      as [d1 H1].
    cbv zeta in H1. rewrite H1.
    match goal with
    | |- context [serve ?c (check_pagination _ _ ;;; ?m) ?d ?f] =>
        destruct (serve_unchecked c page limit m d f Hbad) as [d2 H2]
    end.
    rewrite H2. cbn. repeat split; auto.
Qed.

(* ================================================================== *)
(** ** Deleting a post *)

(** The delete route, served without a storage failure: a post that has
    comments is not deleted. *)
Lemma delete_post_run (db : DB) (post_id : Z) (p : Post.t) :
  find_post post_id db = Some p ->
  let r := Route.DELETE_post post_id db [] in
  match comments_of post_id db with
  | [] => status (fst r) = 200 /\ store (snd r) = delete_post_row post_id db
  | _ :: _ =>
      fst r = Error 500 (lit "Failed to delete post: " ++ integrity_error)
      /\ store (snd r) = db
  end.
Proof.
  intros Hf. pose proof (find_post_id _ _ _ Hf) as Hid. subst post_id.
  unfold Route.DELETE_post. run. rewrite Hf. run.
  destruct (comments_of (Post.id p) db); run; split; reflexivity.
Qed.

(** C1, on the code.  The first post of the blog has a comment and a reply.
    Deleting it is answered 500, the post and both comments stay, and a get
    on either comment still answers 200. *)
Theorem delete_post_with_comments_is_refused :
  fst (Route.DELETE_post 1 Blog.db [])
  = Error 500 (lit "Failed to delete post: NOT NULL constraint failed: comments.post_id")
  /\ store (snd (Route.DELETE_post 1 Blog.db [])) = Blog.db
  /\ fst (Route.GET_comment 1 (store (snd (Route.DELETE_post 1 Blog.db []))) [])
     = JSON 200 (comment_view Blog.comment1)
  /\ fst (Route.GET_comment 2 (store (snd (Route.DELETE_post 1 Blog.db []))) [])
     = JSON 200 (comment_view Blog.comment2).
Proof. vm_compute. repeat split; reflexivity. Qed.

(** A post without comments is deleted. *)
Example delete_post_without_comments :
  status (fst (Route.DELETE_post 2 Blog.db [])) = 200
  /\ store (snd (Route.DELETE_post 2 Blog.db []))
     = mkDB [Blog.post1] [Blog.comment1; Blog.comment2].
Proof. vm_compute. split; reflexivity. Qed.

(* ================================================================== *)
(** ** Unexpected failures *)

Lemma reports_try_reraise {A} (body : M A) (rollback : bool) (prefix : string) :
  raises_only (not_status 500) body ->
  reports_failures prefix rollback (try_except body (reraise_http rollback prefix)).
Proof.
  intros Hbody code db fs d H.
  destruct (serve_try_reraise (not_status 500) code body rollback prefix db fs Hbody)
    as [[a Ha] | [(st & d' & Hr & Hst) | (text & Hr & Hlog)]];
    rewrite H in *.
  - discriminate.
  - injection Hr as <- <-. now elim Hst.
  - injection Hr as ->. split; [now exists text|].
    intros Hrb. exact (proj2 (Hlog Hrb)).
Qed.

Lemma reports_try_catch_all {A} (body : M A) (rollback : bool) (prefix : string) :
  reports_failures prefix rollback (try_except body (server_error rollback prefix)).
Proof.
  intros code db fs d H.
  destruct (serve_try_catch_all code body rollback prefix db fs)
    as [[a Ha] | (text & Hr & Hlog)]; rewrite H in *.
  - discriminate.
  - injection Hr as ->. split; [now exists text|].
    intros Hrb. exact (proj2 (Hlog Hrb)).
Qed.

Lemma reports_checked {A} (page limit : Z) (m : M A) (rollback : bool)
  (prefix : string) :
  reports_failures prefix rollback m ->
  reports_failures prefix rollback (check_pagination page limit ;;; m).
Proof.
  intros Hm code db fs d.
  assert (Hcases : valid_pagination page limit \/ ~ valid_pagination page limit)
    by (unfold valid_pagination; lia).
  destruct Hcases as [Hok | Hbad].
  - rewrite (serve_checked _ _ _ _ _ _ Hok). apply Hm.
  - destruct (serve_unchecked code page limit m db fs Hbad) as [d' ->].
    discriminate.
Qed.

Lemma consumes_pure {A} (m : M A) :
  (forall s, faults (snd (m s)) = faults s) -> consumes m.
Proof.
  intros H s r s' E. exists []. split; [|intros t []].
  specialize (H s). rewrite E in H. cbn in H. now rewrite H.
Qed.

Lemma consumes_ret {A} (a : A) : consumes (ret a).
Proof. now apply consumes_pure. Qed.

Lemma consumes_raise {A} (e : exn) : consumes (@raise A e).
Proof. now apply consumes_pure. Qed.

Lemma consumes_query {A} (f : DB -> A) : consumes (query f).
Proof. now apply consumes_pure. Qed.

Lemma consumes_record (ev : event) : consumes (record ev).
Proof. now apply consumes_pure. Qed.

Lemma consumes_enqueue (c : change) : consumes (enqueue c).
Proof. now apply consumes_pure. Qed.

Lemma consumes_lift {A} (r : A + exn) : consumes (lift r).
Proof. now apply consumes_pure. Qed.

Lemma consumes_round_trip (ev : event) : consumes (round_trip ev).
Proof.
  intros s r s'. unfold round_trip.
  destruct (faults s) as [|[t|] fs] eqn:E; intros [= <- <-]; cbn [faults].
  - exists []. split; [reflexivity | intros t []].
  - exists [Some t]. split; [reflexivity|].
    intros t' [[= <-] | []]. reflexivity.
  - exists [None]. split; [reflexivity|].
    intros t' [[=] | []].
Qed.

Lemma consumes_bind {A B} (m : M A) (k : A -> M B) :
  consumes m -> (forall a, consumes (k a)) -> consumes (bind m k).
Proof.
  intros Hm Hk s r s'. unfold bind.
  destruct (m s) as [[a|e] s1] eqn:E.
  - intros Ek. destruct (Hm _ _ _ E) as (u1 & H1 & F1).
    destruct (Hk a _ _ _ Ek) as (u2 & H2 & F2).
    exists (u1 ++ u2). split.
    + rewrite H1, H2. apply app_assoc.
    + intros t Ht. apply in_app_or in Ht as [Ht | Ht].
      * specialize (F1 t Ht). discriminate.
      * exact (F2 t Ht).
  - intros [= <- <-]. destruct (Hm _ _ _ E) as (u1 & H1 & F1).
    exists u1. split; [exact H1|]. intros t Ht.
    specialize (F1 t Ht). injection F1 as ->. reflexivity.
Qed.

Lemma consumes_mapM {A B} (f : A -> M B) (l : list A) :
  (forall a, consumes (f a)) -> consumes (mapM f l).
Proof.
  intros Hf. induction l as [|x l IH]; cbn [mapM].
  - apply consumes_ret.
  - apply consumes_bind; [apply Hf|]. intros y.
    apply consumes_bind; [exact IH|]. intros ys. apply consumes_ret.
Qed.

Lemma consumes_commit : consumes db_commit.
Proof.
  apply consumes_bind; [apply consumes_round_trip|]. intros _.
  apply consumes_pure. intros s.
  destruct (flush (pending s) (store s)); reflexivity.
Qed.

Ltac consumes :=
  unfold db_get_post, db_get_comment, load_comments, db_add_post,
    db_add_comment, db_set_comment, db_delete_post, db_delete_comment,
    db_refresh_post, db_refresh_comment, db_count_posts, db_select_posts,
    db_count_comments, db_select_comments, post_not_found, comment_not_found,
    post_response, comment_response;
  repeat first
    [ apply consumes_ret
    | apply consumes_raise
    | apply consumes_query
    | apply consumes_record
    | apply consumes_enqueue
    | apply consumes_lift
    | apply consumes_round_trip
    | apply consumes_commit
    | apply consumes_mapM; intros
    | apply consumes_bind; [|intros]
    | match goal with
      | |- consumes (match ?x with _ => _ end) => destruct x
      | |- consumes (if ?x then _ else _) => destruct x
      end ].

Lemma surfaces_try {A} (body : M A) (handler : exn -> M A) (prefix : string) :
  consumes body ->
  (forall t s, exists s',
      handler (Exception t) s
      = (inr (HTTPException 500 (lit prefix ++ t)), s')
      /\ faults s' = faults s) ->
  (forall e s, faults (snd (handler e s)) = faults s) ->
  surfaces_every_failure prefix (try_except body handler).
Proof.
  intros Hbody Hh Hkeep code db fs. unfold serve, try_except.
  destruct (body (get_db db fs)) as [r s1] eqn:E.
  destruct (Hbody _ _ _ E) as (used & Hu & Hf). cbn [faults get_db] in Hu.
  exists used. destruct r as [a|e].
  - split; [exact Hu|]. intros t Ht. specialize (Hf t Ht). discriminate.
  - specialize (Hkeep e s1).
    destruct (handler e s1) as [r2 s2] eqn:E2. cbn [snd] in Hkeep.
    split; [cbn; congruence|].
    intros t Ht. specialize (Hf t Ht). injection Hf as ->.
    destruct (Hh t s1) as (s' & Hs' & _). rewrite E2 in Hs'.
    injection Hs' as -> _. reflexivity.
Qed.

Lemma surfaces_try_reraise {A} (body : M A) (rollback : bool) (prefix : string) :
  consumes body ->
  surfaces_every_failure prefix (try_except body (reraise_http rollback prefix)).
Proof.
  intros Hbody. apply surfaces_try; [exact Hbody | |].
  - intros t s. destruct rollback; eexists; split; reflexivity.
  - intros [st d|t] s; destruct rollback; reflexivity.
Qed.

Lemma surfaces_try_catch_all {A} (body : M A) (rollback : bool) (prefix : string) :
  consumes body ->
  surfaces_every_failure prefix (try_except body (server_error rollback prefix)).
Proof.
  intros Hbody. apply surfaces_try; [exact Hbody | |].
  - intros t s. destruct rollback; eexists; split; reflexivity.
  - intros e s; destruct rollback; reflexivity.
Qed.

Lemma surfaces_checked {A} (page limit : Z) (m : M A) (prefix : string) :
  surfaces_every_failure prefix m ->
  surfaces_every_failure prefix (check_pagination page limit ;;; m).
Proof.
  intros Hm code db fs.
  assert (Hcases : valid_pagination page limit \/ ~ valid_pagination page limit)
    by (unfold valid_pagination; lia).
  destruct Hcases as [Hok | Hbad].
  - rewrite (serve_checked _ _ _ _ _ _ Hok). apply Hm.
  - destruct (serve_unchecked code page limit m db fs Hbad) as [d' ->].
    exists []. split; [reflexivity | intros t []].
Qed.

(** C3, as the code has it.  Whatever the rows and whatever the database
    does: a 500 answer of a handler carries the fixed message of the handler
    followed by a text; every failure of a round trip to the database made
    during the request is answered 500 with that message followed by the
    text of the exception; and the handlers that write (create and delete
    of a post; create, update and delete of a comment) call [rollback]
    before they answer 500. *)
Theorem unexpected_failure_reports_exception_text :
  (forall pd now1 now2,
     failure_policy "Failed to create post: " true (create_post pd now1 now2)
     /\ surfaces_text "Failed to create post: " (create_post pd now1 now2))
  /\ (forall k,
      failure_policy "Failed to delete post: " true (delete_post k)
      /\ surfaces_text "Failed to delete post: " (delete_post k))
  /\ (forall k cd now1 now2,
      failure_policy "Failed to create comment: " true
        (create_comment k cd now1 now2)
      /\ surfaces_text "Failed to create comment: " (create_comment k cd now1 now2))
  /\ (forall k cu now,
      failure_policy "Failed to update comment: " true (update_comment k cu now)
      /\ surfaces_text "Failed to update comment: " (update_comment k cu now))
  /\ (forall k,
      failure_policy "Failed to delete comment: " true (delete_comment k)
      /\ surfaces_text "Failed to delete comment: " (delete_comment k))
  /\ (forall page limit,
      failure_policy "Failed to fetch posts: " false (get_posts page limit)
      /\ (valid_pagination page limit ->
          surfaces_text "Failed to fetch posts: " (get_posts page limit)))
  /\ (forall k,
      failure_policy "Failed to retrieve post: " false (get_post k)
      /\ surfaces_text "Failed to retrieve post: " (get_post k))
  /\ (forall k page limit,
      failure_policy "Failed to fetch comments: " false (get_comments k page limit)
      /\ (valid_pagination page limit ->
          surfaces_text "Failed to fetch comments: " (get_comments k page limit)))
  /\ (forall k,
      failure_policy "Failed to retrieve comment: " false (get_comment k)
      /\ surfaces_text "Failed to retrieve comment: " (get_comment k)).
Proof.
  pose proof (not_status_unexpected 500) as Hu.
  repeat match goal with |- _ /\ _ => split end; intros;
    (split; [split|]); intros.
  - apply reports_try_catch_all.
  - apply surfaces_try_catch_all. consumes.
  - intros code db fs text. reflexivity.
  - apply reports_try_reraise. raises.
  - apply surfaces_try_reraise. consumes.
  - intros code db fs text. reflexivity.
  - apply reports_try_reraise. raises.
  - apply surfaces_try_reraise. consumes.
  - intros code db fs text. reflexivity.
  - apply reports_try_reraise. raises.
  - apply surfaces_try_reraise. consumes.
  - intros code db fs text. reflexivity.
  - apply reports_try_reraise. raises.
  - apply surfaces_try_reraise. consumes.
  - intros code db fs text. reflexivity.
  - apply reports_checked, reports_try_catch_all.
  - apply surfaces_checked, surfaces_try_catch_all. consumes.
  - intros code db fs text. unfold get_posts.
    rewrite serve_checked by assumption. reflexivity.
  - apply reports_try_reraise. raises.
  - apply surfaces_try_reraise. consumes.
  - intros code db fs text. reflexivity.
  - apply reports_checked, reports_try_reraise. raises.
  - apply surfaces_checked, surfaces_try_reraise. consumes.
  - intros code db fs text. unfold get_comments.
    rewrite serve_checked by assumption. reflexivity.
  - apply reports_try_reraise. raises.
  - apply surfaces_try_reraise. consumes.
  - intros code db fs text. reflexivity.
Qed.

(** C3, the claim as written fails: the commit of a delete is refused by the
    database with the text "database is locked", and that text is in the
    detail of the 500 answer. *)
Lemma failure_detail_carries_exception_text :
  fst (Route.DELETE_comment 1 Blog.db [None; Some (lit "database is locked")])
  = Error 500 (lit "Failed to delete comment: database is locked").
Proof. vm_compute. reflexivity. Qed.

(* ================================================================== *)
(** ** What a request does to the rows *)

Example blog_history : replay Blog.history empty_db = Blog.db.
Proof. vm_compute. reflexivity. Qed.

Lemma post_response_store (p : Post.t) (s : Session) :
  store (snd (post_response p s)) = store s
  /\ pending (snd (post_response p s)) = pending s.
Proof.
  unfold post_response. run.
  destruct (faults s) as [|[?|] ?]; run;
    try destruct (PostResponse.new _ _ _ _ _ _ _); split; reflexivity.
Qed.

(** Case analysis on what the database does at each round trip and on what
    the lookups find. *)
Ltac faults :=
  repeat (run;
    match goal with
    | H : ?x = _ |- context [match ?x with _ => _ end] => rewrite H
    | |- context [match ?fs with [] => _ | _ :: _ => _ end] =>
        is_var fs; destruct fs as [|[?|] ?]
    | |- context [match find_post ?k ?d with _ => _ end] =>
        destruct (find_post k d) eqn:?
    | |- context [match find_comment ?k ?d with _ => _ end] =>
        destruct (find_comment k d) eqn:?
    | |- context [match comments_of ?k ?d with _ => _ end] =>
        destruct (comments_of k d) eqn:?
    | |- context [if sqlite_int ?k then _ else _] =>
        destruct (sqlite_int k) eqn:?
    | |- context [match offset_limit ?o ?l ?r with _ => _ end] =>
        destruct (offset_limit o l r) eqn:?
    | |- context [match post_response ?p ?s with _ => _ end] =>
        let H := fresh "Hstore" in
        pose proof (post_response_store p s) as [H _];
        destruct (post_response p s) as [[?|?] ?];
        cbn [snd store] in H
    | |- context [comment_response ?c ?s] => unfold comment_response, lift
    | |- context [match CommentResponse.new ?a ?b ?c ?d ?e ?f ?g with _ => _ end] =>
        destruct (CommentResponse.new a b c d e f g)
    | |- context [match ?e with HTTPException _ _ => _ | Exception _ => _ end] =>
        is_var e; destruct e
    end); run.

Lemma comment_response_state (c : Comment.t) (s : Session) :
  snd (comment_response c s) = s.
Proof. reflexivity. Qed.

Lemma mapM_post_response_store (l : list Post.t) (s : Session) :
  store (snd (mapM post_response l s)) = store s.
Proof.
  revert s. induction l as [|p l IH]; intros s; cbn [mapM]; [reflexivity|].
  unfold bind at 1.
  pose proof (post_response_store p s) as [Hs _].
  destruct (post_response p s) as [[a|e] s1]; cbn [snd] in Hs; [|exact Hs].
  unfold bind at 1. specialize (IH s1).
  destruct (mapM post_response l s1) as [[ys|e] s2]; unfold ret;
    cbn [snd] in IH |- *; congruence.
Qed.

Lemma mapM_comment_response_state (l : list Comment.t) (s : Session) :
  snd (mapM comment_response l s) = s.
Proof.
  induction l as [|c l IH]; cbn [mapM]; [reflexivity|].
  unfold bind at 1. unfold comment_response at 1, lift at 1.
  destruct (CommentResponse.new _ _ _ _ _ _ _); [|reflexivity].
  unfold bind at 1.
  destruct (mapM comment_response l s) as [[ys|e] s2]; unfold ret;
    cbn [snd] in IH |- *; congruence.
Qed.

Lemma get_posts_keeps (db : DB) (page limit : Z) (fs : list (option str)) :
  store (snd (Route.GET_posts page limit db fs)) = db.
Proof.
  unfold Route.GET_posts. run.
  destruct (page <? 1); run; [reflexivity|].
  destruct ((limit <? 1) || (limit >? 100)); run; [reflexivity|].
  faults; try reflexivity;
    match goal with
    | |- context [mapM post_response ?l ?s] =>
        pose proof (mapM_post_response_store l s) as H;
        destruct (mapM post_response l s) as [[?|?] ?]
    end; exact H.
Qed.

Lemma get_comments_keeps (db : DB) (k page limit : Z) (fs : list (option str)) :
  store (snd (Route.GET_post_comments k page limit db fs)) = db.
Proof.
  unfold Route.GET_post_comments. run.
  destruct (page <? 1); run; [reflexivity|].
  destruct ((limit <? 1) || (limit >? 100)); run; [reflexivity|].
  faults; try reflexivity;
    match goal with
    | |- context [mapM comment_response ?l ?s] =>
        pose proof (mapM_comment_response_state l s) as H;
        destruct (mapM comment_response l s) as [[?|?] ?]
    end; cbn [snd] in H; subst;
    try match goal with e : exn |- _ => destruct e end; reflexivity.
Qed.

Lemma get_post_keeps (db : DB) (k : Z) (fs : list (option str)) :
  store (snd (Route.GET_post k db fs)) = db.
Proof.
  unfold Route.GET_post. faults; first [reflexivity | assumption].
Qed.

Lemma get_comment_keeps (db : DB) (k : Z) (fs : list (option str)) :
  store (snd (Route.GET_comment k db fs)) = db.
Proof.
  unfold Route.GET_comment. faults; reflexivity.
Qed.

Lemma delete_comment_effect (db : DB) (k : Z) (fs : list (option str)) :
  effect db (store (snd (Route.DELETE_comment k db fs))).
Proof.
  unfold Route.DELETE_comment. faults;
    first [apply eff_none | apply eff_delete_comment].
Qed.

Lemma delete_post_effect (db : DB) (k : Z) (fs : list (option str)) :
  effect db (store (snd (Route.DELETE_post k db fs))).
Proof.
  unfold Route.DELETE_post. faults;
    first [apply eff_none | apply eff_delete_post; assumption].
Qed.

Lemma create_post_effect (db : DB) (body : PostPayload.t) (now1 now2 : datetime)
  (fs : list (option str)) :
  effect db (store (snd (Route.POST_posts body now1 now2 db fs))).
Proof.
  unfold Route.POST_posts.
  destruct (PostCreate.validate body) as [pd|e] eqn:Ev; [|apply eff_none].
  destruct (validate_post_inl _ _ Ev) as [Ht Hc].
  assert (Hp : valid_post (new_post db pd now1 now2))
    by (repeat split; [exact Ht | exact Hc | discriminate]).
  faults; fold (new_post db pd now1 now2);
    try match goal with H : store _ = _ |- _ => rewrite H end;
    first [apply eff_none | apply eff_post; exact Hp].
Qed.

Lemma create_comment_effect (db : DB) (k : Z) (body : CommentPayload.t)
  (now1 now2 : datetime) (fs : list (option str)) :
  effect db (store (snd (Route.POST_post_comments k body now1 now2 db fs))).
Proof.
  unfold Route.POST_post_comments.
  destruct (CommentCreate.validate body) as [cd|e] eqn:Ev; [|apply eff_none].
  destruct (validate_comment_inl _ _ Ev) as [Hc Ha].
  assert (Hok : forall i parent,
    valid_comment (Comment.mk i (CommentCreate.content cd)
                     (Some (CommentCreate.author cd)) k parent now1 now2)).
  { intros i parent. split; [exact Hc|].
    exists (CommentCreate.author cd). split; [reflexivity | exact Ha]. }
  destruct (CommentCreate.parent_comment_id cd) as [parent_id|] eqn:Ep.
  - faults;
      try (destruct (Comment.post_id _ =? k) eqn:Epost; faults);
      first [ apply eff_none
            | apply eff_comment;
              [ apply Hok
              | intros i [= <-]; eexists; split; [eassumption|];
                now apply Z.eqb_eq ] ].
  - faults;
      first [ apply eff_none
            | apply eff_comment; [apply Hok | intros i; discriminate] ].
Qed.

Lemma update_comment_effect (db : DB) (k : Z) (body : CommentUpdatePayload.t)
  (now : datetime) (fs : list (option str)) :
  effect db (store (snd (Route.PUT_comment k body now db fs))).
Proof.
  unfold Route.PUT_comment, CommentUpdate.validate, required.
  destruct (CommentUpdatePayload.content body) as [v|]; [|apply eff_none].
  destruct (CommentUpdate.content_must_not_be_empty v) as [w|] eqn:Ev;
    [|apply eff_none].
  pose proof (must_not_be_empty_again _ "Content cannot be empty" _ _ Ev) as Hw.
  faults; first [apply eff_none | apply eff_update; exact Hw].
Qed.

Lemma after_effect (rq : request) (db : DB) (fs : list (option str)) :
  effect db (after rq db fs).
Proof.
  destruct rq; cbn [after].
  - apply create_post_effect.
  - rewrite get_posts_keeps. apply eff_none.
  - rewrite get_post_keeps. apply eff_none.
  - apply delete_post_effect.
  - rewrite get_comments_keeps. apply eff_none.
  - apply create_comment_effect.
  - rewrite get_comment_keeps. apply eff_none.
  - apply update_comment_effect.
  - apply delete_comment_effect.
Qed.

(* ================================================================== *)
(** ** Invariants of the reachable states *)

Lemma effect_valid_rows (db db' : DB) :
  effect db db' -> valid_rows db -> valid_rows db'.
Proof.
  intros He [Hp Hc]. destruct He as [|p Hv|c Hv _|k v u Hv|k|k _];
    split; cbn [posts comments insert_post insert_comment update_comment_row
                delete_comment_row detach_replies delete_post_row];
    try assumption.
  - apply Forall_app. split; [exact Hp | constructor; [exact Hv | constructor]].
  - apply Forall_app. split; [exact Hc | constructor; [exact Hv | constructor]].
  - apply Forall_map. eapply Forall_impl; [|exact Hc].
    intros x [Hx1 Hx2]. destruct (Comment.id x =? k); [|split; assumption].
    split; [exact Hv | exact Hx2].
  - eapply incl_Forall; [apply incl_filter|].
    apply Forall_map. eapply Forall_impl; [|exact Hc].
    intros x Hx. destruct (opt_eqb (Comment.parent_comment_id x) k); exact Hx.
  - eapply incl_Forall; [apply incl_filter | exact Hp].
Qed.

Lemma effect_parents_ok (db db' : DB) :
  effect db db' -> parents_ok db -> parents_ok db'.
Proof.
  intros He Hdb. destruct He as [|p _|c _ Hparent|k v u _|k|k _];
    try exact Hdb; unfold parents_ok in *;
    cbn [posts comments insert_post insert_comment update_comment_row
         delete_comment_row detach_replies delete_post_row].
  - (* a new comment *)
    intros x j Hx Hj. apply in_app_or in Hx as [Hx | [<- | []]].
    + destruct (Hdb x j Hx Hj) as (q & Hq & Hid & Hpost).
      exists q. split; [apply in_or_app; now left | auto].
    + destruct (Hparent j Hj) as (pc & Hf & Hpost).
      exists pc. split; [|split].
      * apply in_or_app. left. unfold find_comment in Hf.
        now apply find_some in Hf.
      * exact (find_comment_id _ _ _ Hf).
      * exact Hpost.
  - (* an update of content and updated_at *)
    set (f := fun r => if Comment.id r =? k
                       then Comment.set_updated_at u (Comment.set_content v r)
                       else r) in *.
    intros x j Hx Hj. apply in_map_iff in Hx as (x0 & Hfx & Hx0). subst x.
    assert (Hf : forall r, Comment.id (f r) = Comment.id r
                           /\ Comment.post_id (f r) = Comment.post_id r
                           /\ Comment.parent_comment_id (f r)
                              = Comment.parent_comment_id r).
    { intros r. unfold f. destruct (Comment.id r =? k); repeat split. }
    destruct (Hf x0) as (_ & Hpost0 & Hpar0). rewrite Hpar0 in Hj.
    destruct (Hdb x0 j Hx0 Hj) as (q & Hq & Hid & Hpost).
    exists (f q). destruct (Hf q) as (Hid' & Hpost' & _).
    split; [now apply in_map | split; congruence].
  - (* a deleted comment, its replies detached *)
    set (g := fun r => if opt_eqb (Comment.parent_comment_id r) k
                       then Comment.set_parent_comment_id None r else r) in *.
    intros x j Hx Hj. apply filter_In in Hx as [Hx Hkeep].
    apply in_map_iff in Hx as (x0 & Hgx & Hx0). subst x.
    assert (Hg : forall r, Comment.id (g r) = Comment.id r
                           /\ Comment.post_id (g r) = Comment.post_id r).
    { intros r. unfold g.
      destruct (opt_eqb (Comment.parent_comment_id r) k); split; reflexivity. }
    assert (Hx0' : Comment.parent_comment_id x0 = Some j /\ j <> k).
    { unfold g in Hj.
      destruct (opt_eqb (Comment.parent_comment_id x0) k) eqn:E;
        [discriminate|].
      split; [exact Hj|]. intros ->. rewrite Hj in E. cbn in E.
      now rewrite Z.eqb_refl in E. }
    destruct Hx0' as [Hpar Hjk].
    destruct (Hdb x0 j Hx0 Hpar) as (q & Hq & Hid & Hpost).
    exists (g q). destruct (Hg q) as [Hid' Hpost'].
    destruct (Hg x0) as [_ Hpost0]. split; [|split; congruence].
    apply filter_In. split; [now apply in_map|].
    rewrite Hid', Hid. apply negb_true_iff, Z.eqb_neq. exact Hjk.
Qed.

Lemma reachable_valid_rows (db : DB) : reachable db -> valid_rows db.
Proof.
  induction 1 as [|db rq fs _ IH].
  - split; constructor.
  - exact (effect_valid_rows _ _ (after_effect rq db fs) IH).
Qed.

Lemma replay_reachable (rqs : list request) (db : DB) :
  reachable db -> reachable (replay rqs db).
Proof.
  revert db. induction rqs as [|rq rqs IH]; intros db H; [exact H|].
  apply IH. now constructor.
Qed.

(** C5.  In every state the requests reach, whatever the database did
    meanwhile, a comment whose [parent_comment_id] is set refers to a stored
    comment of the same post; so it is after a comment is deleted. *)
Theorem parent_references_stay_valid (db : DB) :
  reachable db -> parents_ok db.
Proof.
  induction 1 as [|db rq fs _ IH].
  - intros c k [].
  - exact (effect_parents_ok _ _ (after_effect rq db fs) IH).
Qed.

(** The blog after its first comment, which has a reply, is deleted. *)
Lemma parent_references_stay_valid_witness :
  reachable (replay (Blog.history ++ [Remove_comment 1]) empty_db)
  /\ parents_ok (replay (Blog.history ++ [Remove_comment 1]) empty_db).
Proof.
  assert (H : reachable (replay (Blog.history ++ [Remove_comment 1]) empty_db))
    by (apply replay_reachable; constructor).
  split; [exact H | exact (parent_references_stay_valid _ H)].
Defined.

(** In that state the reply is still stored, as a top-level comment. *)
Example reply_outlives_its_parent :
  comments (replay (Blog.history ++ [Remove_comment 1]) empty_db)
  = [Comment.set_parent_comment_id None Blog.comment2].
Proof. vm_compute. reflexivity. Qed.

(* ================================================================== *)
(** * Further properties *)

(** ** The field validators *)

Lemma lstrip_blank_prefix (s : str) :
  exists a, s = a ++ lstrip s /\ blank a.
Proof.
  induction s as [|c s (a & IH & Ha)]; cbn [lstrip].
  - exists []. split; [reflexivity | constructor].
  - destruct (isspace c) eqn:E.
    + exists (c :: a). split; [cbn; f_equal; exact IH | constructor; assumption].
    + exists []. split; [reflexivity | constructor].
Qed.

Lemma blank_rev (s : str) : blank s -> blank (rev s).
Proof. unfold blank. apply Forall_rev. Qed.

Lemma rstrip_blank_suffix (s : str) :
  exists b, s = rstrip s ++ b /\ blank b.
Proof.
  unfold rstrip. destruct (lstrip_blank_prefix (rev s)) as (a & Ha & Hb).
  exists (rev a). split; [|now apply blank_rev].
  rewrite <- rev_app_distr, <- Ha, rev_involutive. reflexivity.
Qed.

Lemma strip_decomposes (s : str) :
  exists a b, s = a ++ strip s ++ b /\ blank a /\ blank b.
Proof.
  destruct (lstrip_blank_prefix s) as (a & Ha & Hba).
  destruct (rstrip_blank_suffix (lstrip s)) as (b & Hb & Hbb).
  exists a, b. unfold strip. rewrite <- Hb. auto.
Qed.

Lemma lstrip_blank (s : str) : blank s -> lstrip s = [].
Proof.
  induction 1 as [|c s Hc _ IH]; cbn [lstrip]; [reflexivity|].
  now rewrite Hc.
Qed.

Lemma strip_blank (s : str) : blank s <-> strip s = [].
Proof.
  split.
  - intros H. unfold strip. now rewrite (lstrip_blank _ H).
  - intros H. destruct (strip_decomposes s) as (a & b & Hs & Ha & Hb).
    rewrite H in Hs. cbn in Hs. rewrite Hs. apply Forall_app. auto.
Qed.

Lemma strip_clean_back (s : str) : clean_back (strip s).
Proof.
  unfold clean_back, strip, rstrip. rewrite rev_involutive.
  apply lstrip_clean_front.
Qed.

(** X1.  A value one of the field validators accepts is the input without
    the white space around it: the result is not empty, neither starts nor
    ends with white space, and the input is the result between two runs of
    white space.  A value is refused, with the message of the validator,
    exactly when it is white space only (the empty string included). *)
Theorem validator_returns_the_stripped_core (msg : string) (v : str) :
  (forall w, must_not_be_empty msg v = inl w ->
     w <> [] /\ clean_front w /\ clean_back w
     /\ exists a b, v = a ++ w ++ b /\ blank a /\ blank b)
  /\ (forall m, must_not_be_empty msg v = inr m <-> blank v /\ m = lit msg)
  /\ (blank v \/ exists w, must_not_be_empty msg v = inl w).
Proof.
  repeat split.
  - apply must_not_be_empty_inl in H as [Hne ->]. exact Hne.
  - apply must_not_be_empty_inl in H as [Hne ->].
    unfold strip. apply rstrip_clean_front, lstrip_clean_front.
  - apply must_not_be_empty_inl in H as [Hne ->]. apply strip_clean_back.
  - apply must_not_be_empty_inl in H as [Hne ->]. apply strip_decomposes.
  - apply must_not_be_empty_inr in H as [H _]. now apply strip_blank.
  - now apply must_not_be_empty_inr in H.
  - intros [Hb ->]. apply must_not_be_empty_inr. split; [|reflexivity].
    now apply strip_blank.
  - destruct (must_not_be_empty msg v) as [w|m] eqn:E.
    + right. now exists w.
    + left. apply must_not_be_empty_inr in E as [E _]. now apply strip_blank.
Qed.

(** ** Validated bodies *)

Lemma must_not_be_empty_fixed (msg : string) (v : str) :
  must_not_be_empty msg v = inl v <-> strip v = v /\ v <> [].
Proof.
  rewrite must_not_be_empty_inl. split.
  - intros [Hne He]. split; congruence.
  - intros [He Hne]. split; congruence.
Qed.

(** X2.  A body that has passed validation passes it again unchanged: the
    create and update schemas accept the fields they have returned, as they
    are. *)
Theorem validated_bodies_validate_again :
  (forall body pd, PostCreate.validate body = inl pd ->
     PostCreate.validate (post_payload pd) = inl pd)
  /\ (forall body cd, CommentCreate.validate body = inl cd ->
      CommentCreate.validate (comment_payload cd) = inl cd)
  /\ (forall body cu, CommentUpdate.validate body = inl cu ->
      CommentUpdate.validate (comment_update_payload cu) = inl cu)
  /\ (forall title content pu, PostUpdate.validate title content = inl pu ->
      PostUpdate.validate (PostUpdate.title pu) (PostUpdate.content pu) = inl pu).
Proof.
  repeat match goal with |- _ /\ _ => split end.
  - intros body pd H. destruct (validate_post_inl _ _ H) as [Ht Hc].
    unfold PostCreate.validate, post_payload, required.
    cbn [PostPayload.title PostPayload.content PostPayload.author].
    rewrite Ht, Hc. now destruct pd.
  - intros body cd H. destruct (validate_comment_inl _ _ H) as [Hc Ha].
    unfold CommentCreate.validate, comment_payload, required.
    cbn [CommentPayload.content CommentPayload.author
         CommentPayload.parent_comment_id].
    rewrite Hc, Ha. now destruct cd.
  - intros body cu. unfold CommentUpdate.validate, required.
    destruct (CommentUpdatePayload.content body) as [v|]; [|discriminate].
    destruct (CommentUpdate.content_must_not_be_empty v) as [w|] eqn:E;
      [|discriminate].
    intros [= <-]. cbn [comment_update_payload CommentUpdatePayload.content
                        CommentUpdate.content].
    unfold CommentUpdate.content_must_not_be_empty in *.
    now rewrite (must_not_be_empty_again _ _ _ _ E).
  - intros title content pu. unfold PostUpdate.validate, opt_must_not_be_empty.
    assert (Hfix : forall v, truthy v = true -> truthy (strip v) = true ->
              negb (truthy (strip v)) || negb (truthy (strip (strip v))) = false).
    { intros v _ Hs. rewrite strip_idempotent, Hs. reflexivity. }
    destruct title as [t|], content as [c|];
      repeat match goal with
        | |- context [truthy ?x] =>
            lazymatch x with
            | strip _ => fail
            | _ => destruct (truthy x) eqn:?
            end
        end; cbn [negb orb];
      repeat match goal with
        | |- context [truthy (strip ?x)] => destruct (truthy (strip x)) eqn:?
        end; cbn [negb orb]; try discriminate;
      intros [= <-]; cbn [PostUpdate.title PostUpdate.content];
      repeat match goal with
        | H : truthy (strip ?x) = true |- _ =>
            rewrite (Hfix x) by assumption; rewrite H; clear H
        end; rewrite ?strip_idempotent; reflexivity.
Qed.

(** X3.  [PostUpdate]: the body is accepted exactly when each field is
    either omitted, and then stays omitted, or given and not empty once
    stripped, and then kept stripped; a given title that is white space only
    is refused under the name of the title, and, when the title passes, a
    given content that is white space only under the name of the content. *)
Theorem post_update_cleans_given_fields (title content : option str) :
  (forall pu, PostUpdate.validate title content = inl pu <->
     cleaned title (PostUpdate.title pu) /\ cleaned content (PostUpdate.content pu))
  /\ (forall v, title = Some v -> blank v ->
      PostUpdate.validate title content
      = inr ("title"%string, lit "Title cannot be empty"))
  /\ (forall v kept, content = Some v -> blank v -> cleaned title kept ->
      PostUpdate.validate title content
      = inr ("content"%string, lit "Content cannot be empty")).
Proof.
  assert (Hopt : forall msg (g k : option str),
            opt_must_not_be_empty msg g = inl k <-> cleaned g k).
  { intros msg [v|] k; unfold opt_must_not_be_empty, cleaned.
    - destruct v as [|c v]; [rewrite strip_nil; cbn; split;
                             [discriminate | intros [H _]; now elim H]|].
      cbn [truthy negb orb].
      destruct (strip (c :: v)) as [|d u]; cbn [truthy negb].
      + split; [discriminate | intros [H _]; now elim H].
      + split; [intros [= <-]; split; [discriminate | reflexivity]
               | intros [_ ->]; reflexivity].
    - split; [intros [= <-]; reflexivity | intros ->; reflexivity]. }
  assert (Hbad : forall msg v, blank v ->
            opt_must_not_be_empty msg (Some v) = inr (lit msg)).
  { intros msg v Hb. apply strip_blank in Hb. unfold opt_must_not_be_empty.
    rewrite Hb. cbn [truthy negb]. now rewrite orb_true_r. }
  repeat match goal with |- _ /\ _ => split end.
  - intros pu. unfold PostUpdate.validate.
    destruct (opt_must_not_be_empty "Title cannot be empty" title) as [t|] eqn:Et.
    + destruct (opt_must_not_be_empty "Content cannot be empty" content)
        as [c|] eqn:Ec.
      * apply Hopt in Et, Ec. split.
        -- intros [= <-]. split; assumption.
        -- intros [Ht Hc]. destruct pu as [t' c'].
           cbn [PostUpdate.title PostUpdate.content] in *.
           assert (t' = t) by (destruct title; unfold cleaned in *;
                               [destruct Ht, Et | ]; congruence).
           assert (c' = c) by (destruct content; unfold cleaned in *;
                               [destruct Hc, Ec | ]; congruence).
           congruence.
      * split; [discriminate|]. intros [_ Hc].
        apply (Hopt "Content cannot be empty"%string) in Hc. congruence.
    + split; [discriminate|]. intros [Ht _].
      apply (Hopt "Title cannot be empty"%string) in Ht. congruence.
  - intros v -> Hb. unfold PostUpdate.validate. now rewrite Hbad.
  - intros v kept -> Hb Ht. unfold PostUpdate.validate.
    apply (Hopt "Title cannot be empty"%string) in Ht. rewrite Ht. now rewrite Hbad.
Qed.

(** ** A key that is not stored *)

(** X4.  When no post has the id, a 64-bit integer, and the database does
    not fail, the get and delete routes of the post, the list of its
    comments (for a valid page and limit) and the creation of a comment on
    it (for a valid body) all answer 404 with the detail
    "Post with ID <id> not found", and the rows are unchanged. *)
Theorem missing_post_is_not_found (db : DB) (post_id : Z) :
  find_post post_id db = None ->
  - 2 ^ 63 <= post_id < 2 ^ 63 ->
  let detail := lit "Post with ID " ++ str_of_int post_id ++ lit " not found" in
  (fst (Route.GET_post post_id db []) = Error 404 detail
   /\ store (snd (Route.GET_post post_id db [])) = db)
  /\ (fst (Route.DELETE_post post_id db []) = Error 404 detail
      /\ store (snd (Route.DELETE_post post_id db [])) = db)
  /\ (forall page limit, valid_pagination page limit ->
      fst (Route.GET_post_comments post_id page limit db []) = Error 404 detail
      /\ store (snd (Route.GET_post_comments post_id page limit db [])) = db)
  /\ (forall body cd now1 now2, CommentCreate.validate body = inl cd ->
      fst (Route.POST_post_comments post_id body now1 now2 db [])
      = Error 404 detail
      /\ store (snd (Route.POST_post_comments post_id body now1 now2 db [])) = db).
Proof.
  intros Hf Hk. apply sqlite_int_spec in Hk. cbv zeta.
  repeat match goal with |- _ /\ _ => split end.
  - unfold Route.GET_post. run. rewrite Hf, Hk. reflexivity.
  - unfold Route.GET_post. run. rewrite Hf, Hk. reflexivity.
  - unfold Route.DELETE_post. run. rewrite Hf, Hk. reflexivity.
  - unfold Route.DELETE_post. run. rewrite Hf, Hk. reflexivity.
  - intros page limit Hp. unfold Route.GET_post_comments, get_comments.
    rewrite serve_checked by assumption. run. rewrite Hf, Hk.
    split; reflexivity.
  - intros body cd now1 now2 Hb. unfold Route.POST_post_comments.
    rewrite Hb. run. rewrite Hf, Hk. split; reflexivity.
Qed.

(** No post of the blog has the id 7. *)
Lemma missing_post_is_not_found_witness :
  fst (Route.GET_post 7 Blog.db [])
  = Error 404 (lit "Post with ID 7 not found")
  /\ fst (Route.DELETE_post 7 Blog.db [])
     = Error 404 (lit "Post with ID 7 not found").
Proof.
  destruct (missing_post_is_not_found Blog.db 7 eq_refl ltac:(lia))
    as ([H1 _] & [H2 _] & _).
  split; [exact H1 | exact H2].
Defined.

(** X5.  When no comment has the id, a 64-bit integer, and the database
    does not fail, the get, update (for a valid body) and delete routes of
    the comment answer 404 with the detail "Comment with ID <id> not found",
    a reply to it on an existing post is refused with 404 and the detail
    "Parent comment with ID <id> not found", and the rows are unchanged. *)
Theorem missing_comment_is_not_found (db : DB) (comment_id : Z) :
  find_comment comment_id db = None ->
  - 2 ^ 63 <= comment_id < 2 ^ 63 ->
  let detail :=
    lit "Comment with ID " ++ str_of_int comment_id ++ lit " not found" in
  (fst (Route.GET_comment comment_id db []) = Error 404 detail
   /\ store (snd (Route.GET_comment comment_id db [])) = db)
  /\ (fst (Route.DELETE_comment comment_id db []) = Error 404 detail
      /\ store (snd (Route.DELETE_comment comment_id db [])) = db)
  /\ (forall body cu now, CommentUpdate.validate body = inl cu ->
      fst (Route.PUT_comment comment_id body now db []) = Error 404 detail
      /\ store (snd (Route.PUT_comment comment_id body now db [])) = db)
  /\ (forall post_id p body cd now1 now2,
      find_post post_id db = Some p ->
      CommentCreate.validate body = inl cd ->
      CommentCreate.parent_comment_id cd = Some comment_id ->
      fst (Route.POST_post_comments post_id body now1 now2 db [])
      = Error 404 (lit "Parent comment with ID " ++ str_of_int comment_id
                   ++ lit " not found")
      /\ store (snd (Route.POST_post_comments post_id body now1 now2 db [])) = db).
Proof.
  intros Hf Hk. apply sqlite_int_spec in Hk. cbv zeta.
  repeat match goal with |- _ /\ _ => split end.
  - unfold Route.GET_comment. run. rewrite Hf, Hk. reflexivity.
  - unfold Route.GET_comment. run. rewrite Hf, Hk. reflexivity.
  - unfold Route.DELETE_comment. run. rewrite Hf, Hk. reflexivity.
  - unfold Route.DELETE_comment. run. rewrite Hf, Hk. reflexivity.
  - intros body cu now Hb. unfold Route.PUT_comment. rewrite Hb. run.
    rewrite Hf, Hk. split; reflexivity.
  - intros post_id p body cd now1 now2 Hp Hb Hparent.
    unfold Route.POST_post_comments. rewrite Hb. run. rewrite Hp. run.
    rewrite Hparent. run. rewrite Hf, Hk. split; reflexivity.
Qed.

(** No comment of the blog has the id 9. *)
Lemma missing_comment_is_not_found_witness :
  fst (Route.GET_comment 9 Blog.db [])
  = Error 404 (lit "Comment with ID 9 not found")
  /\ store (snd (Route.DELETE_comment 9 Blog.db [])) = Blog.db.
Proof.
  destruct (missing_comment_is_not_found Blog.db 9 eq_refl ltac:(lia))
    as ([H1 _] & [_ H2] & _).
  split; [exact H1 | exact H2].
Defined.

(** ** Reading a comment *)

(** X6.  The get route of a comment, served without a failure of the
    database, answers 200 with the stored comment as it is: id, content,
    author, post_id, parent_comment_id and both time stamps. *)
Theorem get_comment_returns_the_row (db : DB) (comment_id : Z) (c : Comment.t) :
  find_comment comment_id db = Some c ->
  valid_comment c ->
  exists a,
    Comment.author c = Some a
    /\ fst (Route.GET_comment comment_id db [])
       = JSON 200 (CommentResponse.mk comment_id (Comment.content c) a
                     (Comment.post_id c) (Comment.parent_comment_id c)
                     (Comment.created_at c) (Comment.updated_at c))
    /\ store (snd (Route.GET_comment comment_id db [])) = db.
Proof.
  intros Hf Hv. pose proof (find_comment_id _ _ _ Hf) as Hid.
  destruct Hv as (Hc & a & Ea & Ha). exists a. split; [exact Ea|].
  unfold Route.GET_comment. run. rewrite Hf. run.
  rewrite comment_response_run by (split; [exact Hc | now exists a]).
  unfold comment_view. rewrite Ea, Hid. split; reflexivity.
Qed.

Lemma get_comment_returns_the_row_witness :
  exists a,
    Comment.author Blog.comment2 = Some a
    /\ fst (Route.GET_comment 2 Blog.db [])
       = JSON 200 (CommentResponse.mk 2 (lit "reply") a 1 (Some 1) 30 31)
    /\ store (snd (Route.GET_comment 2 Blog.db [])) = Blog.db.
Proof.
  apply (get_comment_returns_the_row Blog.db 2 Blog.comment2 eq_refl).
  split; [reflexivity|]. exists (lit "z"). split; reflexivity.
Defined.

(** ** Deleting *)

Lemma find_none_filtered {A} (f : A -> bool) (l : list A) :
  find f (filter (fun x => negb (f x)) l) = None.
Proof.
  induction l as [|x l IH]; cbn [filter find]; [reflexivity|].
  destruct (f x) eqn:E; cbn [negb find]; [exact IH|].
  now rewrite E.
Qed.

(** X7.  Deleting a stored comment, without a failure of the database,
    answers 200 with a confirmation.  Afterwards no comment has that id, the
    posts are unchanged, and every other comment is still stored: a reply to
    the deleted comment has lost its parent and is otherwise unchanged,
    nothing else is deleted. *)
Theorem delete_comment_detaches_replies (db : DB) (comment_id : Z) (c : Comment.t) :
  find_comment comment_id db = Some c ->
  fst (Route.DELETE_comment comment_id db [])
  = JSON 200 (lit "Comment with ID " ++ str_of_int comment_id
              ++ lit " deleted successfully")
  /\ find_comment comment_id (store (snd (Route.DELETE_comment comment_id db [])))
     = None
  /\ posts (store (snd (Route.DELETE_comment comment_id db []))) = posts db
  /\ (forall y,
        In y (comments (store (snd (Route.DELETE_comment comment_id db []))))
        <-> exists x, In x (comments db) /\ Comment.id x <> comment_id
                      /\ y = detached_from comment_id x)
  /\ (forall y,
        In y (comments (store (snd (Route.DELETE_comment comment_id db []))))
        -> Comment.parent_comment_id y <> Some comment_id).
Proof.
  intros Hf. pose proof (find_comment_id _ _ _ Hf) as Hid.
  assert (Hrun : Route.DELETE_comment comment_id db []
                 = (JSON 200 (lit "Comment with ID " ++ str_of_int comment_id
                              ++ lit " deleted successfully"),
                    mkSession (delete_comment_row comment_id
                                 (detach_replies comment_id db)) [] []
                      [Ev_get; Ev_delete; Ev_commit; Ev_close])).
  { unfold Route.DELETE_comment. run. rewrite Hf. run. rewrite Hid. reflexivity. }
  rewrite Hrun. cbn [fst snd store].
  assert (Hin : forall y,
    In y (comments (delete_comment_row comment_id (detach_replies comment_id db)))
    <-> exists x, In x (comments db) /\ Comment.id x <> comment_id
                  /\ y = detached_from comment_id x).
  { intros y. unfold delete_comment_row, detach_replies. cbn [comments].
    rewrite filter_In, in_map_iff. fold (detached_from comment_id). split.
    - intros [(x & <- & Hx) Hk]. exists x. repeat split; [exact Hx|].
      apply negb_true_iff, Z.eqb_neq in Hk. unfold detached_from in Hk.
      now destruct (opt_eqb (Comment.parent_comment_id x) comment_id).
    - intros (x & Hx & Hk & ->). split; [now exists x|].
      apply negb_true_iff, Z.eqb_neq. unfold detached_from.
      now destruct (opt_eqb (Comment.parent_comment_id x) comment_id). }
  refine (conj eq_refl (conj _ (conj eq_refl (conj Hin _)))).
  - unfold find_comment, delete_comment_row. cbn [comments].
    apply (find_none_filtered (fun r => Comment.id r =? comment_id)).
  - intros y H Hy. apply Hin in H as (x & _ & _ & ->). unfold detached_from in Hy.
    destruct (opt_eqb (Comment.parent_comment_id x) comment_id) eqn:E.
    + discriminate.
    + rewrite Hy in E. cbn in E. now rewrite Z.eqb_refl in E.
Qed.

(** The first comment of the blog has one reply. *)
Lemma delete_comment_detaches_replies_witness :
  find_comment 1 (store (snd (Route.DELETE_comment 1 Blog.db []))) = None
  /\ comments (store (snd (Route.DELETE_comment 1 Blog.db [])))
     = [Comment.set_parent_comment_id None Blog.comment2].
Proof.
  destruct (delete_comment_detaches_replies Blog.db 1 Blog.comment1 eq_refl)
    as (_ & H & _).
  split; [exact H | reflexivity].
Defined.

(** X8.  Deleting a stored post, without a failure of the database.  When
    no comment has its id as [post_id], the answer is 200 with a
    confirmation, no post has that id afterwards, every other post is kept
    and the comments are unchanged.  When a comment has, the answer is 500,
    whatever the number of comments, and the rows are unchanged. *)
Theorem delete_post_needs_a_post_without_comments (db : DB) (post_id : Z)
  (p : Post.t) :
  find_post post_id db = Some p ->
  (comments_of post_id db = [] ->
     fst (Route.DELETE_post post_id db [])
     = JSON 200 (lit "Post with ID " ++ str_of_int post_id
                 ++ lit " deleted successfully")
     /\ find_post post_id (store (snd (Route.DELETE_post post_id db []))) = None
     /\ (forall q, In q (posts (store (snd (Route.DELETE_post post_id db []))))
                   <-> In q (posts db) /\ Post.id q <> post_id)
     /\ comments (store (snd (Route.DELETE_post post_id db []))) = comments db)
  /\ (comments_of post_id db <> [] ->
      fst (Route.DELETE_post post_id db [])
      = Error 500 (lit "Failed to delete post: " ++ integrity_error)
      /\ store (snd (Route.DELETE_post post_id db [])) = db).
Proof.
  intros Hf. pose proof (find_post_id _ _ _ Hf) as Hid. split.
  - intros Hnone.
    assert (Hrun : Route.DELETE_post post_id db []
                   = (JSON 200 (lit "Post with ID " ++ str_of_int post_id
                                ++ lit " deleted successfully"),
                      mkSession (delete_post_row post_id db) [] []
                        [Ev_get; Ev_delete; Ev_commit; Ev_close])).
    { unfold Route.DELETE_post. run. rewrite Hf. run. rewrite Hid, Hnone.
      reflexivity. }
    rewrite Hrun. cbn [fst snd store].
    refine (conj eq_refl (conj _ (conj _ eq_refl))).
    + unfold find_post, delete_post_row. cbn [posts].
      apply (find_none_filtered (fun r => Post.id r =? post_id)).
    + intros q. unfold delete_post_row. cbn [posts].
      rewrite filter_In, negb_true_iff, Z.eqb_neq. reflexivity.
  - intros Hsome. unfold Route.DELETE_post. run. rewrite Hf. run. rewrite Hid.
    destruct (comments_of post_id db); [now elim Hsome|]. split; reflexivity.
Qed.

(** The second post of the blog has no comment. *)
Lemma delete_post_needs_a_post_without_comments_witness :
  find_post 2 (store (snd (Route.DELETE_post 2 Blog.db []))) = None
  /\ comments (store (snd (Route.DELETE_post 2 Blog.db []))) = comments Blog.db.
Proof.
  destruct (delete_post_needs_a_post_without_comments Blog.db 2 Blog.post2
              eq_refl) as [H _].
  destruct (H eq_refl) as (_ & H1 & _ & H2).
  split; [exact H1 | exact H2].
Defined.

(** ** Creating, then reading *)

Lemma find_app_found {A} (f : A -> bool) (l l' : list A) (x : A) :
  find f l = Some x -> find f (l ++ l') = Some x.
Proof.
  induction l as [|y l IH]; cbn [find app]; [discriminate|].
  destruct (f y); [trivial | exact IH].
Qed.

(** X9.  A post created from a valid body, without a failure of the
    database, is answered 201 with the validated title, content and author
    and the two clock readings; a get of the returned id on the rows left by
    the creation answers 200 with the same body; and every post that could
    be found before is found unchanged. *)
Theorem create_post_then_get (db : DB) (body : PostPayload.t)
  (pd : PostCreate.t) (now1 now2 : datetime) :
  PostCreate.validate body = inl pd ->
  exists resp,
    fst (Route.POST_posts body now1 now2 db []) = JSON 201 resp
    /\ PostResponse.title resp = PostCreate.title pd
    /\ PostResponse.content resp = PostCreate.content pd
    /\ PostResponse.author resp = PostCreate.author pd
    /\ PostResponse.created_at resp = now1
    /\ PostResponse.updated_at resp = now2
    /\ fst (Route.GET_post (PostResponse.id resp)
              (store (snd (Route.POST_posts body now1 now2 db []))) [])
       = JSON 200 resp
    /\ (forall k p, find_post k db = Some p ->
          find_post k (store (snd (Route.POST_posts body now1 now2 db [])))
          = Some p).
Proof.
  intros Hb. destruct (validate_post_inl _ _ Hb) as [Ht Hc].
  destruct (create_post_run db pd now1 now2 Ht Hc) as [Hr Hs].
  unfold Route.POST_posts. rewrite Hb, Hr, Hs.
  exists (post_view db (new_post db pd now1 now2)).
  refine (conj eq_refl (conj eq_refl (conj eq_refl (conj eq_refl
           (conj eq_refl (conj eq_refl (conj _ _))))))).
  - cbn [post_view PostResponse.id new_post Post.id].
    pose proof (find_post_added db (new_post db pd now1 now2) eq_refl) as Hnew.
    cbn [new_post Post.id] in Hnew. unfold Route.GET_post. run.
    fold (new_post db pd now1 now2). rewrite Hnew. run.
    rewrite post_response_run; [reflexivity|].
    repeat split; [exact Ht | exact Hc | discriminate].
  - intros k p Hk. unfold find_post, insert_post in *. cbn [posts].
    now apply find_app_found.
Qed.

(** X10.  A comment created on an existing post from a valid body, with no
    parent or with a parent stored on the same post, without a failure of
    the database: a get of the returned id answers 200 with the body the
    creation returned, the comments of the post are the former ones followed
    by the new one, and the comment count the post is shown with grows by
    one. *)
Theorem create_comment_then_read (db : DB) (post_id : Z) (p : Post.t)
  (body : CommentPayload.t) (cd : CommentCreate.t) (now1 now2 : datetime) :
  CommentCreate.validate body = inl cd ->
  find_post post_id db = Some p ->
  valid_post p ->
  match CommentCreate.parent_comment_id cd with
  | None => True
  | Some parent_id =>
      exists parent, find_comment parent_id db = Some parent
                     /\ Comment.post_id parent = post_id
  end ->
  exists resp row,
    fst (Route.POST_post_comments post_id body now1 now2 db []) = JSON 201 resp
    /\ CommentResponse.id resp = Comment.id row
    /\ fst (Route.GET_comment (CommentResponse.id resp)
              (store (snd (Route.POST_post_comments post_id body now1 now2 db [])))
              [])
       = JSON 200 resp
    /\ comments_of post_id
         (store (snd (Route.POST_post_comments post_id body now1 now2 db [])))
       = comments_of post_id db ++ [row]
    /\ (exists shown,
          fst (Route.GET_post post_id
                 (store (snd (Route.POST_post_comments post_id body now1 now2
                                db []))) [])
          = JSON 200 shown
          /\ PostResponse.comments_count shown
             = PostResponse.comments_count (post_view db p) + 1).
Proof.
  intros Hb Hp Hvp Hparent.
  destruct (validate_comment_inl _ _ Hb) as [Hc Ha].
  set (row := Comment.mk (next_id (map Comment.id (comments db)))
                (CommentCreate.content cd) (Some (CommentCreate.author cd))
                post_id (CommentCreate.parent_comment_id cd) now1 now2).
  assert (Hrow : valid_comment row).
  { split; [exact Hc|]. exists (CommentCreate.author cd).
    split; [reflexivity | exact Ha]. }
  pose proof (find_comment_added db row eq_refl) as Hnew.
  cbn [row Comment.id] in Hnew. fold row in Hnew.
  assert (Hrun : fst (Route.POST_post_comments post_id body now1 now2 db [])
                 = JSON 201 (comment_view row)
                 /\ store (snd (Route.POST_post_comments post_id body now1 now2
                                  db []))
                    = insert_comment row db).
  { unfold Route.POST_post_comments. rewrite Hb. run. rewrite Hp. run.
    destruct (CommentCreate.parent_comment_id cd) as [parent_id|] eqn:Epar.
    - destruct Hparent as (parent & Hfp & Hpp). run. rewrite Hfp. run.
      rewrite Hpp, Z.eqb_refl. run.
      change (Comment.mk (next_id (map Comment.id (comments db)))
                (CommentCreate.content cd) (Some (CommentCreate.author cd))
                post_id (Some parent_id) now1 now2) with row.
      rewrite Hnew. run. rewrite (comment_response_run _ _ Hrow).
      split; reflexivity.
    - run.
      change (Comment.mk (next_id (map Comment.id (comments db)))
                (CommentCreate.content cd) (Some (CommentCreate.author cd))
                post_id None now1 now2) with row.
      rewrite Hnew. run. rewrite (comment_response_run _ _ Hrow).
      split; reflexivity. }
  destruct Hrun as [Hr Hs]. rewrite Hr, Hs.
  exists (comment_view row), row.
  refine (conj eq_refl (conj eq_refl (conj _ (conj _ _)))).
  - cbn [comment_view CommentResponse.id row Comment.id]. fold row.
    unfold Route.GET_comment. run. rewrite Hnew. run.
    rewrite (comment_response_run _ _ Hrow). reflexivity.
  - unfold comments_of, insert_comment. cbn [comments].
    rewrite filter_app. cbn [filter row Comment.post_id].
    now rewrite Z.eqb_refl.
  - exists (post_view (insert_comment row db) p). split.
    + unfold Route.GET_post. run.
      change (find_post post_id (insert_comment row db))
        with (find_post post_id db).
      rewrite Hp. run. rewrite (post_response_run _ _ _ _ Hvp). reflexivity.
    + cbn [post_view PostResponse.comments_count].
      rewrite (find_post_id _ _ _ Hp).
      unfold comments_of, insert_comment, len. cbn [comments].
      rewrite filter_app, length_app. cbn [filter row Comment.post_id].
      rewrite Z.eqb_refl. cbn [List.length]. lia.
Qed.

(** ** What a request leaves behind when it fails *)

(** X11.  The four reading routes never change the rows, whatever the
    arguments and whatever the database does. *)
Theorem reading_changes_nothing (db : DB) (fs : list (option str))
  (k page limit : Z) :
  store (snd (Route.GET_posts page limit db fs)) = db
  /\ store (snd (Route.GET_post k db fs)) = db
  /\ store (snd (Route.GET_post_comments k page limit db fs)) = db
  /\ store (snd (Route.GET_comment k db fs)) = db.
Proof.
  repeat split.
  - apply get_posts_keeps.
  - apply get_post_keeps.
  - apply get_comments_keeps.
  - apply get_comment_keeps.
Qed.

Lemma comment_response_new_cases (k : Z) (content : str) (author : option str)
  (post_id : Z) (parent : option Z) (t1 t2 : datetime) :
  (exists r, CommentResponse.new k content author post_id parent t1 t2 = inl r)
  \/ (exists text,
        CommentResponse.new k content author post_id parent t1 t2
        = inr (Exception text)).
Proof.
  unfold CommentResponse.new, checked.
  repeat match goal with
         | |- context [match ?x with _ => _ end] => destruct x
         end; eauto.
Qed.

(** The case analysis of [faults], with the exceptions of the response
    schemas kept apart from the HTTP ones. *)
Ltac outcomes :=
  repeat (run;
    match goal with
    | H : ?x = _ |- context [match ?x with _ => _ end] => rewrite H
    | |- context [match ?fs with [] => _ | _ :: _ => _ end] =>
        is_var fs; destruct fs as [|[?|] ?]
    | |- context [match find_post ?k ?d with _ => _ end] =>
        destruct (find_post k d) eqn:?
    | |- context [match find_comment ?k ?d with _ => _ end] =>
        destruct (find_comment k d) eqn:?
    | |- context [match comments_of ?k ?d with _ => _ end] =>
        destruct (comments_of k d) eqn:?
    | |- context [if sqlite_int ?k then _ else _] =>
        destruct (sqlite_int k) eqn:?
    | |- context [match offset_limit ?o ?l ?r with _ => _ end] =>
        destruct (offset_limit o l r) eqn:?
    | |- context [match post_response ?p ?s with _ => _ end] =>
        let H := fresh "Hstore" in
        pose proof (post_response_store p s) as [H _];
        destruct (post_response p s) as [[?|?] ?];
        cbn [snd store] in H
    | |- context [comment_response ?c ?s] => unfold comment_response, lift
    | |- context [match CommentResponse.new ?a ?b ?c ?d ?e ?f ?g with _ => _ end] =>
        let H := fresh "Hnew" in
        destruct (comment_response_new_cases a b c d e f g) as [[? H] | [? H]];
        rewrite H
    end); run.

Ltac refused :=
  first [ reflexivity
        | intros; exfalso; cbn [status fst] in *;
          unfold HTTP_200_OK, HTTP_201_CREATED, HTTP_500_INTERNAL_SERVER_ERROR in *;
          lia ].

(** X12.  A writing route that answers with a client error (a status from
    400 to 499) has not changed the rows, whatever the database did. *)
Theorem client_error_changes_nothing (db : DB) (fs : list (option str)) :
  (forall body now1 now2,
     400 <= status (fst (Route.POST_posts body now1 now2 db fs)) < 500 ->
     store (snd (Route.POST_posts body now1 now2 db fs)) = db)
  /\ (forall k,
      400 <= status (fst (Route.DELETE_post k db fs)) < 500 ->
      store (snd (Route.DELETE_post k db fs)) = db)
  /\ (forall k body now1 now2,
      400 <= status (fst (Route.POST_post_comments k body now1 now2 db fs)) < 500 ->
      store (snd (Route.POST_post_comments k body now1 now2 db fs)) = db)
  /\ (forall k body now,
      400 <= status (fst (Route.PUT_comment k body now db fs)) < 500 ->
      store (snd (Route.PUT_comment k body now db fs)) = db)
  /\ (forall k,
      400 <= status (fst (Route.DELETE_comment k db fs)) < 500 ->
      store (snd (Route.DELETE_comment k db fs)) = db).
Proof.
  repeat match goal with |- _ /\ _ => split end.
  - intros body now1 now2. unfold Route.POST_posts.
    destruct (PostCreate.validate body); [|reflexivity].
    outcomes; refused.
  - intros k. unfold Route.DELETE_post. outcomes; refused.
  - intros k body now1 now2. unfold Route.POST_post_comments.
    destruct (CommentCreate.validate body) as [cd|]; [|reflexivity].
    destruct (CommentCreate.parent_comment_id cd) eqn:Ep.
    + outcomes; try (destruct (Comment.post_id _ =? k); outcomes); refused.
    + outcomes; refused.
  - intros k body now. unfold Route.PUT_comment.
    destruct (CommentUpdate.validate body); [|reflexivity].
    outcomes; refused.
  - intros k. unfold Route.DELETE_comment. outcomes; refused.
Qed.

(** X13.  A delete that does not answer 200 has deleted nothing, whatever
    the database did: the delete of a post and the delete of a comment are
    all or nothing. *)
Theorem failed_delete_changes_nothing (db : DB) (fs : list (option str)) (k : Z) :
  (status (fst (Route.DELETE_post k db fs)) <> 200 ->
   store (snd (Route.DELETE_post k db fs)) = db)
  /\ (status (fst (Route.DELETE_comment k db fs)) <> 200 ->
      store (snd (Route.DELETE_comment k db fs)) = db).
Proof.
  split.
  - unfold Route.DELETE_post. faults;
      first [reflexivity | intros H; now elim H].
  - unfold Route.DELETE_comment. faults;
      first [reflexivity | intros H; now elim H].
Qed.

(** X14.  A commit is not undone by the roll back of the handler: when the
    commit succeeds and the read that follows it fails, the create of a
    post, the create of a comment and the update of a comment answer 500
    although the row is stored. *)
Theorem failure_after_commit_keeps_the_write (db : DB) (t : str)
  (fs : list (option str)) :
  (forall pd now1 now2,
     fst (serve HTTP_201_CREATED (create_post pd now1 now2) db
            (None :: Some t :: fs))
     = Error 500 (lit "Failed to create post: " ++ t)
     /\ store (snd (serve HTTP_201_CREATED (create_post pd now1 now2) db
                      (None :: Some t :: fs)))
        = insert_post (new_post db pd now1 now2) db)
  /\ (forall k p cd now1 now2,
      find_post k db = Some p ->
      CommentCreate.parent_comment_id cd = None ->
      fst (serve HTTP_201_CREATED (create_comment k cd now1 now2) db
             (None :: None :: Some t :: fs))
      = Error 500 (lit "Failed to create comment: " ++ t)
      /\ store (snd (serve HTTP_201_CREATED (create_comment k cd now1 now2) db
                       (None :: None :: Some t :: fs)))
         = insert_comment
             (Comment.mk (next_id (map Comment.id (comments db)))
                (CommentCreate.content cd) (Some (CommentCreate.author cd))
                k None now1 now2) db)
  /\ (forall k c cu now,
      find_comment k db = Some c ->
      fst (serve HTTP_200_OK (update_comment k cu now) db
             (None :: None :: Some t :: fs))
      = Error 500 (lit "Failed to update comment: " ++ t)
      /\ store (snd (serve HTTP_200_OK (update_comment k cu now) db
                       (None :: None :: Some t :: fs)))
         = update_comment_row k (CommentUpdate.content cu) now db).
Proof.
  repeat match goal with |- _ /\ _ => split end.
  - intros pd now1 now2. run. split; reflexivity.
  - intros k p cd now1 now2 Hp Hpar. run. rewrite Hp. run. rewrite Hpar. run.
    split; reflexivity.
  - intros k c cu now Hc. pose proof (find_comment_id _ _ _ Hc) as Hid.
    run. rewrite Hc. run. rewrite Hid. split; reflexivity.
Qed.

(** ** More invariants of the reachable states *)

Lemma create_post_written (db : DB) (body : PostPayload.t) (now1 now2 : datetime)
  (fs : list (option str)) :
  written db (store (snd (Route.POST_posts body now1 now2 db fs))).
Proof.
  unfold Route.POST_posts.
  destruct (PostCreate.validate body) as [pd|e]; [|apply wr_none].
  faults; try match goal with H : store _ = _ |- _ => rewrite H end;
    first [apply wr_none | apply wr_post; reflexivity].
Qed.

Lemma create_comment_written (db : DB) (k : Z) (body : CommentPayload.t)
  (now1 now2 : datetime) (fs : list (option str)) :
  written db (store (snd (Route.POST_post_comments k body now1 now2 db fs))).
Proof.
  unfold Route.POST_post_comments.
  destruct (CommentCreate.validate body) as [cd|e]; [|apply wr_none].
  destruct (CommentCreate.parent_comment_id cd) as [parent_id|] eqn:Ep.
  - faults; try (destruct (Comment.post_id _ =? k) eqn:Epost; faults);
      first [ apply wr_none
            | eapply wr_comment; [reflexivity | eassumption] ].
  - faults;
      first [ apply wr_none
            | eapply wr_comment; [reflexivity | eassumption] ].
Qed.

Lemma update_comment_written (db : DB) (k : Z) (body : CommentUpdatePayload.t)
  (now : datetime) (fs : list (option str)) :
  written db (store (snd (Route.PUT_comment k body now db fs))).
Proof.
  unfold Route.PUT_comment.
  destruct (CommentUpdate.validate body); [|apply wr_none].
  faults; first [apply wr_none | apply wr_update].
Qed.

Lemma delete_comment_written (db : DB) (k : Z) (fs : list (option str)) :
  written db (store (snd (Route.DELETE_comment k db fs))).
Proof.
  unfold Route.DELETE_comment. faults;
    first [apply wr_none | apply wr_delete_comment].
Qed.

Lemma delete_post_written (db : DB) (k : Z) (fs : list (option str)) :
  written db (store (snd (Route.DELETE_post k db fs))).
Proof.
  unfold Route.DELETE_post. faults;
    first [apply wr_none | apply wr_delete_post; assumption].
Qed.

Lemma after_written (rq : request) (db : DB) (fs : list (option str)) :
  written db (after rq db fs).
Proof.
  destruct rq; cbn [after].
  - apply create_post_written.
  - rewrite get_posts_keeps. apply wr_none.
  - rewrite get_post_keeps. apply wr_none.
  - apply delete_post_written.
  - rewrite get_comments_keeps. apply wr_none.
  - apply create_comment_written.
  - rewrite get_comment_keeps. apply wr_none.
  - apply update_comment_written.
  - apply delete_comment_written.
Qed.

Lemma NoDup_snoc {A} (l : list A) (x : A) :
  NoDup l -> ~ In x l -> NoDup (l ++ [x]).
Proof.
  intros Hl Hx. apply (Permutation_NoDup (l := x :: l)).
  - apply Permutation_cons_append.
  - now constructor.
Qed.

Lemma NoDup_map_filter {A B} (f : A -> B) (g : A -> bool) (l : list A) :
  NoDup (map f l) -> NoDup (map f (filter g l)).
Proof.
  induction l as [|x l IH]; cbn [map filter]; [trivial|].
  intros H. inversion H as [|? ? Hx Hl]; subst.
  destruct (g x); cbn [map]; [|now apply IH].
  constructor; [|now apply IH].
  intros Hin. apply Hx. apply in_map_iff in Hin as (y & Hy & Hin).
  apply in_map_iff. exists y. split; [exact Hy|].
  now apply filter_In in Hin.
Qed.

Lemma next_id_fresh (ids : list Z) : ~ In (next_id ids) ids.
Proof. intros H. apply next_id_above in H. lia. Qed.

Lemma written_keys_unique (db db' : DB) :
  written db db' -> keys_unique db -> keys_unique db'.
Proof.
  intros Hw [Hp Hc]. destruct Hw as [|p Hk|c p Hk _|k v u|k|k _];
    split; cbn [posts comments insert_post insert_comment update_comment_row
                delete_comment_row detach_replies delete_post_row];
    try assumption.
  - rewrite map_app. cbn [map]. apply NoDup_snoc; [exact Hp|].
    rewrite Hk. apply next_id_fresh.
  - rewrite map_app. cbn [map]. apply NoDup_snoc; [exact Hc|].
    rewrite Hk. apply next_id_fresh.
  - rewrite map_map. erewrite map_ext; [exact Hc|].
    intros x. now destruct (Comment.id x =? k).
  - apply NoDup_map_filter. rewrite map_map. erewrite map_ext; [exact Hc|].
    intros x. now destruct (opt_eqb (Comment.parent_comment_id x) k).
  - now apply NoDup_map_filter.
Qed.

Lemma written_posts_exist (db db' : DB) :
  written db db' -> posts_exist db -> posts_exist db'.
Proof.
  intros Hw Hdb. destruct Hw as [|p Hk|c p Hk Hp|k v u|k|k Hnone];
    try exact Hdb; unfold posts_exist in *;
    cbn [posts comments insert_post insert_comment update_comment_row
         delete_comment_row detach_replies delete_post_row].
  - intros c Hc. destruct (Hdb c Hc) as (q & Hq & Hid).
    exists q. split; [apply in_or_app; now left | exact Hid].
  - intros x Hx. apply in_app_or in Hx as [Hx | [<- | []]].
    + exact (Hdb x Hx).
    + exists p. split; [|exact (find_post_id _ _ _ Hp)].
      unfold find_post in Hp. now apply find_some in Hp.
  - intros x Hx. apply in_map_iff in Hx as (x0 & <- & Hx0).
    destruct (Hdb x0 Hx0) as (q & Hq & Hid). exists q. split; [exact Hq|].
    now destruct (Comment.id x0 =? k).
  - intros x Hx. apply filter_In in Hx as [Hx _].
    apply in_map_iff in Hx as (x0 & <- & Hx0).
    destruct (Hdb x0 Hx0) as (q & Hq & Hid). exists q. split; [exact Hq|].
    now destruct (opt_eqb (Comment.parent_comment_id x0) k).
  - intros c Hc. destruct (Hdb c Hc) as (q & Hq & Hid).
    exists q. split; [|exact Hid].
    apply filter_In. split; [exact Hq|].
    apply negb_true_iff, Z.eqb_neq. intros Hqk.
    assert (Hin : In c (comments_of k db)).
    { unfold comments_of. apply filter_In. split; [exact Hc|].
      apply Z.eqb_eq. congruence. }
    rewrite Hnone in Hin. exact Hin.
Qed.

Lemma find_unique {A} (f : A -> Z) (l : list A) (x : A) :
  NoDup (map f l) -> In x l -> find (fun y => f y =? f x) l = Some x.
Proof.
  induction l as [|y l IH]; cbn [map find]; [intros _ []|].
  intros H [-> | Hin].
  - now rewrite Z.eqb_refl.
  - inversion H as [|? ? Hy Hl]; subst.
    destruct (f y =? f x) eqn:E; [|now apply IH].
    apply Z.eqb_eq in E. exfalso. apply Hy. rewrite E. now apply in_map.
Qed.

(** X15.  In every state the requests reach, whatever the database did, no
    two posts and no two comments have the same id, and a lookup by id finds
    every stored row. *)
Theorem keys_stay_unique (db : DB) :
  reachable db ->
  keys_unique db
  /\ (forall p, In p (posts db) -> find_post (Post.id p) db = Some p)
  /\ (forall c, In c (comments db) -> find_comment (Comment.id c) db = Some c).
Proof.
  intros Hr.
  assert (Hk : keys_unique db).
  { induction Hr as [|db rq fs _ IH].
    - split; constructor.
    - exact (written_keys_unique _ _ (after_written rq db fs) IH). }
  split; [exact Hk|]. destruct Hk as [Hp Hc]. split.
  - intros p Hin. exact (find_unique Post.id _ _ Hp Hin).
  - intros c Hin. exact (find_unique Comment.id _ _ Hc Hin).
Qed.

Lemma blog_reachable : reachable Blog.db.
Proof.
  change Blog.db with (replay Blog.history empty_db).
  apply replay_reachable. constructor.
Qed.

Lemma keys_stay_unique_witness :
  reachable Blog.db
  /\ find_comment 2 Blog.db = Some Blog.comment2.
Proof.
  split; [exact blog_reachable|].
  destruct (keys_stay_unique Blog.db blog_reachable) as (_ & _ & H).
  apply (H Blog.comment2). right. left. reflexivity.
Defined.

Lemma reachable_posts_exist (db : DB) : reachable db -> posts_exist db.
Proof.
  induction 1 as [|db rq fs _ IH].
  - intros c [].
  - exact (written_posts_exist _ _ (after_written rq db fs) IH).
Qed.

(** X16.  In every state the requests reach, whatever the database did,
    every stored comment belongs to a stored post: a lookup of its [post_id]
    finds a post, and the comment is among the comments of that post. *)
Theorem comments_keep_their_post (db : DB) (c : Comment.t) :
  reachable db ->
  In c (comments db) ->
  exists p, find_post (Comment.post_id c) db = Some p
            /\ In c (comments_of (Post.id p) db).
Proof.
  intros Hr Hc. destruct (reachable_posts_exist db Hr c Hc) as (q & Hq & Hid).
  destruct (find_post (Comment.post_id c) db) as [p|] eqn:E.
  - exists p. split; [reflexivity|].
    unfold comments_of. apply filter_In. split; [exact Hc|].
    apply Z.eqb_eq. symmetry. exact (find_post_id _ _ _ E).
  - exfalso. unfold find_post in E.
    apply (find_none _ _ E) in Hq. apply Z.eqb_neq in Hq. contradiction.
Qed.

Lemma blog_after_removals :
  replay (Blog.history ++ [Remove_post 2; Remove_post 1]) empty_db
  = mkDB [Blog.post1] [Blog.comment1; Blog.comment2].
Proof. vm_compute. reflexivity. Qed.

(** The reply of the blog, after the second post is deleted and a delete of
    the first is tried. *)
Lemma comments_keep_their_post_witness :
  exists p,
    find_post 1 (replay (Blog.history ++ [Remove_post 2; Remove_post 1]) empty_db)
    = Some p
    /\ In Blog.comment2
         (comments_of (Post.id p)
            (replay (Blog.history ++ [Remove_post 2; Remove_post 1]) empty_db)).
Proof.
  apply (comments_keep_their_post
           (replay (Blog.history ++ [Remove_post 2; Remove_post 1]) empty_db)
           Blog.comment2).
  - apply replay_reachable. constructor.
  - rewrite blog_after_removals. right. left. reflexivity.
Defined.

(** X17.  In every state the requests reach, a post created from a valid
    body, without a failure of the database, is returned with a comment
    count of 0. *)
Theorem new_post_has_no_comments (db : DB) (body : PostPayload.t)
  (pd : PostCreate.t) (now1 now2 : datetime) :
  reachable db ->
  PostCreate.validate body = inl pd ->
  exists resp,
    fst (Route.POST_posts body now1 now2 db []) = JSON 201 resp
    /\ PostResponse.comments_count resp = 0.
Proof.
  intros Hr Hb. destruct (validate_post_inl _ _ Hb) as [Ht Hc].
  destruct (create_post_run db pd now1 now2 Ht Hc) as [Hrun _].
  unfold Route.POST_posts. rewrite Hb, Hrun.
  eexists. split; [reflexivity|].
  cbn [post_view PostResponse.comments_count new_post Post.id].
  destruct (comments_of (next_id (map Post.id (posts db))) db) as [|c l] eqn:E;
    [reflexivity|]. exfalso.
  assert (Hin : In c (comments_of (next_id (map Post.id (posts db))) db))
    by (rewrite E; now left).
  unfold comments_of in Hin. apply filter_In in Hin as [Hin Hk].
  apply Z.eqb_eq in Hk.
  destruct (reachable_posts_exist db Hr c Hin) as (q & Hq & Hid).
  apply (next_id_fresh (map Post.id (posts db))).
  rewrite <- Hk, <- Hid. now apply in_map.
Qed.

Lemma new_post_has_no_comments_witness :
  exists resp,
    fst (Route.POST_posts Blog.blank_author 50 51 Blog.db []) = JSON 201 resp
    /\ PostResponse.comments_count resp = 0.
Proof.
  exact (new_post_has_no_comments Blog.db Blog.blank_author
           (PostCreate.mk (lit "A") (lit "B") (lit "   ")) 50 51
           blog_reachable eq_refl).
Defined.

(** ** The pages of a list *)

Lemma chunks_concat {A} (k : nat) (n : nat) (l : list A) :
  (List.length l <= n * k)%nat ->
  List.concat (map (fun i => firstn k (skipn (i * k) l)) (seq 0 n)) = l.
Proof.
  revert l. induction n as [|n IH]; intros l Hl.
  - destruct l; [reflexivity | cbn in Hl; lia].
  - cbn [seq map List.concat]. rewrite <- seq_shift, map_map.
    rewrite (map_ext _ (fun i => firstn k (skipn (i * k) (skipn k l)))).
    + rewrite IH; [apply firstn_skipn|].
      rewrite length_skipn. lia.
    + intros i. rewrite skipn_skipn. f_equal. f_equal. lia.
Qed.

Lemma page_offset (i : nat) (limit : Z) :
  0 <= limit ->
  Z.to_nat ((Z.of_nat (S i) - 1) * limit) = (i * Z.to_nat limit)%nat.
Proof.
  intros Hl. replace (Z.of_nat (S i) - 1) with (Z.of_nat i) by lia.
  rewrite Z2Nat.inj_mul by lia. now rewrite Nat2Z.id.
Qed.

Lemma pages_cover {A} (limit : Z) (n : nat) (rows : list A) :
  1 <= limit -> len rows <= Z.of_nat n * limit ->
  List.concat (map (fun page => offset_limit ((page - 1) * limit) limit rows)
            (pages n))
  = rows.
Proof.
  intros Hl Hn. unfold pages, offset_limit. rewrite map_map.
  rewrite (map_ext _ (fun i => firstn (Z.to_nat limit)
                                 (skipn (i * Z.to_nat limit) rows))).
  - apply chunks_concat. unfold len in Hn. nia.
  - intros i. rewrite page_offset by lia. reflexivity.
Qed.

(** X18.  The pages of a list, read one after the other without a failure
    of the database, give every row once and in order: for a limit from 1
    to 100 and the number of pages the list reports, the items of the pages
    1, 2, ... of the posts are the posts from the newest to the oldest, and
    the items of the pages of the comments of a stored post are its comments
    from the oldest to the newest. *)
Theorem pages_give_every_row_once (db : DB) (limit : Z) (n : nat) :
  1 <= limit <= 100 -> valid_rows db ->
  (is_ceiling (Z.of_nat n) (len (posts db)) limit ->
   List.concat (map (posts_page db limit) (pages n))
   = map (post_view db) (order_by post_created_desc (posts db)))
  /\ (forall post_id p,
      find_post post_id db = Some p ->
      is_ceiling (Z.of_nat n) (len (comments_of post_id db)) limit ->
      List.concat (map (comments_page db post_id limit) (pages n))
      = map comment_view
          (order_by comment_created_asc (comments_of post_id db))).
Proof.
  intros Hl Hv.
  assert (Hpage : forall page, In page (pages n) -> 1 <= page <= Z.of_nat n).
  { intros page Hin. unfold pages in Hin.
    apply in_map_iff in Hin as (i & <- & Hi). apply in_seq in Hi. lia. }
  assert (Hrow : forall {A} (rows : list A) page,
            In page (pages n) -> (Z.of_nat n - 1) * limit < len rows ->
            offset_bound ((page - 1) * limit) rows).
  { intros A rows page Hin Hlast. right. apply Hpage in Hin. nia. }
  split.
  - intros [Hlast Hn].
    rewrite <- (pages_cover limit n (order_by post_created_desc (posts db)))
      by (rewrite ?order_by_len; lia).
    rewrite List.concat_map, map_map. f_equal. apply map_ext_in.
    intros page Hin. unfold posts_page.
    now rewrite (get_posts_run db page limit (proj1 (Hpage page Hin)) Hl Hv
                   (Hrow _ _ page Hin Hlast)).
  - intros post_id p Hp [Hlast Hn].
    rewrite <- (pages_cover limit n
                  (order_by comment_created_asc (comments_of post_id db)))
      by (rewrite ?order_by_len; lia).
    rewrite List.concat_map, map_map. f_equal. apply map_ext_in.
    intros page Hin. unfold comments_page.
    now rewrite (get_comments_run db post_id page limit p
                   (proj1 (Hpage page Hin)) Hl Hv Hp (Hrow _ _ page Hin Hlast)).
Qed.

(** The two posts of the blog, one per page. *)
Lemma pages_give_every_row_once_witness :
  List.concat (map (posts_page Blog.db 1) (pages 2))
  = [post_view Blog.db Blog.post2; post_view Blog.db Blog.post1].
Proof.
  destruct (pages_give_every_row_once Blog.db 1 2 ltac:(lia) blog_valid_rows)
    as [H _].
  rewrite H; [reflexivity|]. unfold is_ceiling. vm_compute.
  repeat split; discriminate.
Defined.

(** ** Reading a post, and a comment after its update *)

(** X19.  The get route of a post, served without a failure of the database
    on a row the response schema accepts, answers 200 with the stored post
    as it is (id, title, content, author, both time stamps) and leaves the
    rows unchanged. *)
Theorem get_post_returns_the_row (db : DB) (post_id : Z) (p : Post.t) :
  find_post post_id db = Some p ->
  valid_post p ->
  exists a count,
    Post.author p = Some a
    /\ fst (Route.GET_post post_id db [])
       = JSON 200 (PostResponse.mk post_id (Post.title p) (Post.content p) a
                     (Post.created_at p) (Post.updated_at p) count)
    /\ store (snd (Route.GET_post post_id db [])) = db.
Proof.
  intros Hf Hv. pose proof (find_post_id _ _ _ Hf) as Hid.
  destruct (Post.author p) as [a|] eqn:Ea; [|now destruct Hv as (_ & _ & H)].
  exists a, (len (comments_of post_id db)). split; [reflexivity|].
  unfold Route.GET_post. run. rewrite Hf. run.
  rewrite (post_response_run _ _ _ _ Hv). unfold post_view.
  rewrite Ea, Hid. split; reflexivity.
Qed.

Lemma get_post_returns_the_row_witness :
  exists a count,
    Post.author Blog.post2 = Some a
    /\ fst (Route.GET_post 2 Blog.db [])
       = JSON 200 (PostResponse.mk 2 (lit "News") (lit "Body") a 12 13 count)
    /\ store (snd (Route.GET_post 2 Blog.db [])) = Blog.db.
Proof.
  apply (get_post_returns_the_row Blog.db 2 Blog.post2 eq_refl).
  repeat split; discriminate.
Defined.

(** X20.  After an update of a stored comment with a valid body, without a
    failure of the database, a get of the comment answers 200 with the body
    the update returned; the posts, the number of comments and the ids,
    posts and parents of the comments are as before. *)
Theorem update_comment_then_get (db : DB) (comment_id : Z) (c : Comment.t)
  (body : CommentUpdatePayload.t) (cu : CommentUpdate.t) (now : datetime) :
  find_comment comment_id db = Some c ->
  valid_comment c ->
  CommentUpdate.validate body = inl cu ->
  exists resp,
    fst (Route.PUT_comment comment_id body now db []) = JSON 200 resp
    /\ CommentResponse.content resp = CommentUpdate.content cu
    /\ fst (Route.GET_comment comment_id
              (store (snd (Route.PUT_comment comment_id body now db []))) [])
       = JSON 200 resp
    /\ posts (store (snd (Route.PUT_comment comment_id body now db [])))
       = posts db
    /\ map (fun x => (Comment.id x, Comment.post_id x, Comment.parent_comment_id x))
         (comments (store (snd (Route.PUT_comment comment_id body now db []))))
       = map (fun x => (Comment.id x, Comment.post_id x, Comment.parent_comment_id x))
           (comments db).
Proof.
  intros Hf Hv Hb. pose proof (find_comment_id _ _ _ Hf) as Hid.
  assert (Hcu : CommentBase.content_must_not_be_empty (CommentUpdate.content cu)
                = inl (CommentUpdate.content cu)).
  { revert Hb. unfold CommentUpdate.validate, required.
    destruct (CommentUpdatePayload.content body) as [v|]; [|discriminate].
    destruct (CommentUpdate.content_must_not_be_empty v) as [w|] eqn:E;
      [|discriminate].
    intros [= <-]. exact (must_not_be_empty_again _ _ _ _ E). }
  set (c' := Comment.set_updated_at now
               (Comment.set_content (CommentUpdate.content cu) c)).
  assert (Hv' : valid_comment c').
  { destruct Hv as (_ & a & Ea & Ha). split; [exact Hcu|]. now exists a. }
  pose proof (find_comment_updated comment_id (CommentUpdate.content cu) now
                db c Hf) as Hnew.
  fold c' in Hnew.
  assert (Hrun : fst (Route.PUT_comment comment_id body now db [])
                 = JSON 200 (comment_view c')
                 /\ store (snd (Route.PUT_comment comment_id body now db []))
                    = update_comment_row comment_id (CommentUpdate.content cu)
                        now db).
  { unfold Route.PUT_comment. rewrite Hb. run. rewrite Hf. run. rewrite Hid.
    rewrite Hnew. run. rewrite (comment_response_run _ _ Hv').
    split; reflexivity. }
  destruct Hrun as [Hr Hs]. rewrite Hr, Hs. exists (comment_view c').
  refine (conj eq_refl (conj eq_refl (conj _ (conj eq_refl _)))).
  - unfold Route.GET_comment. run. rewrite Hnew. run.
    rewrite (comment_response_run _ _ Hv'). reflexivity.
  - unfold update_comment_row. cbn [comments]. rewrite map_map.
    apply map_ext. intros x. now destruct (Comment.id x =? comment_id).
Qed.

Lemma update_comment_then_get_witness :
  exists resp,
    fst (Route.PUT_comment 2 Blog.edit 35 Blog.db []) = JSON 200 resp
    /\ fst (Route.GET_comment 2
              (store (snd (Route.PUT_comment 2 Blog.edit 35 Blog.db []))) [])
       = JSON 200 resp.
Proof.
  destruct (update_comment_then_get Blog.db 2 Blog.comment2 Blog.edit
              (CommentUpdate.mk (lit "edited")) 35 eq_refl)
    as (resp & H1 & _ & H2 & _).
  - split; [reflexivity|]. exists (lit "z"). split; reflexivity.
  - reflexivity.
  - exists resp. split; assumption.
Defined.

(** ** What a page holds *)

Lemma missing_post_page (db : DB) (post_id page limit : Z) :
  find_post post_id db = None -> valid_pagination page limit ->
  exists st d,
    fst (Route.GET_post_comments post_id page limit db []) = Error st d.
Proof.
  intros Hf Hp. unfold Route.GET_post_comments, get_comments.
  rewrite serve_checked by assumption. run. rewrite Hf.
  destruct (sqlite_int post_id); eexists _, _; reflexivity.
Qed.

Lemma offset_limit_length {A} (offset limit : Z) (rows : list A) :
  0 <= limit -> len (offset_limit offset limit rows) <= limit.
Proof.
  intros Hl. unfold offset_limit, len. rewrite length_firstn. lia.
Qed.

(** X21.  A page never holds more items than the limit, and the items of a
    page of the comments of a post are stored comments of that post and of
    no other. *)
Theorem page_items_are_bounded (db : DB) (post_id page limit : Z) :
  valid_pagination page limit -> valid_rows db ->
  len (posts_page db limit page) <= limit
  /\ len (comments_page db post_id limit page) <= limit
  /\ (forall item, In item (comments_page db post_id limit page) ->
        CommentResponse.post_id item = post_id
        /\ exists c, In c (comments db) /\ item = comment_view c).
Proof.
  intros [Hp Hl] Hv. split; [|split].
  - unfold posts_page.
    destruct (offset_cases page limit (posts db) Hp ltac:(lia)) as [Ho|[Hw Hn]].
    + rewrite (get_posts_run db page limit Hp Hl Hv Ho).
      cbn [PostListResponse.posts]. unfold len. rewrite length_map.
      apply offset_limit_length. lia.
    + rewrite (get_posts_wide_offset db page limit Hp Hl Hw Hn).
      unfold len. cbn [List.length]. lia.
  - unfold comments_page.
    destruct (find_post post_id db) as [p|] eqn:Ef.
    + destruct (offset_cases page limit (comments_of post_id db) Hp ltac:(lia))
        as [Ho|[Hw Hn]].
      * rewrite (get_comments_run db post_id page limit p Hp Hl Hv Ef Ho).
        cbn [CommentListResponse.comments]. unfold len. rewrite length_map.
        apply offset_limit_length. lia.
      * rewrite (get_comments_wide_offset db post_id page limit p Hp Hl Ef Hw Hn).
        unfold len. cbn [List.length]. lia.
    + destruct (missing_post_page db post_id page limit Ef (conj Hp Hl))
        as (st & d & ->).
      unfold len. cbn [List.length]. lia.
  - intros item. unfold comments_page.
    destruct (find_post post_id db) as [p|] eqn:Ef.
    + destruct (offset_cases page limit (comments_of post_id db) Hp ltac:(lia))
        as [Ho|[Hw Hn]].
      * rewrite (get_comments_run db post_id page limit p Hp Hl Hv Ef Ho).
        cbn [CommentListResponse.comments]. intros Hin.
        apply in_map_iff in Hin as (c & <- & Hc).
        apply offset_limit_incl in Hc.
        apply (Permutation_in _ (order_by_perm comment_created_asc _)) in Hc.
        unfold comments_of in Hc. apply filter_In in Hc as [Hc Hk].
        split; [now apply Z.eqb_eq in Hk | now exists c].
      * rewrite (get_comments_wide_offset db post_id page limit p Hp Hl Ef Hw Hn).
        intros [].
    + destruct (missing_post_page db post_id page limit Ef (conj Hp Hl))
        as (st & d & ->).
      intros [].
Qed.

Lemma page_items_are_bounded_witness :
  len (posts_page Blog.db 1 1) <= 1
  /\ len (comments_page Blog.db 1 1 2) <= 1.
Proof.
  destruct (page_items_are_bounded Blog.db 1 1 1) as (H1 & _).
  - split; lia.
  - exact blog_valid_rows.
  - destruct (page_items_are_bounded Blog.db 1 2 1) as (_ & H2 & _).
    + split; lia.
    + exact blog_valid_rows.
    + split; [exact H1 | exact H2].
Defined.

(** ** The status codes of the routes *)

Lemma http_among_unexpected (codes : list Z) (text : str) :
  http_among codes (Exception text).
Proof. exact I. Qed.

Lemma status_try_reraise {A} (codes : list Z) (code : Z) (body : M A)
  (rollback : bool) (prefix : string) (db : DB) (fs : list (option str)) :
  raises_only (http_among codes) body ->
  In (status (fst (serve code (try_except body (reraise_http rollback prefix))
                     db fs)))
     (code :: 500 :: codes).
Proof.
  intros Hbody.
  destruct (serve_try_reraise (http_among codes) code body rollback prefix db fs
              Hbody)
    as [[a ->] | [(st & d & -> & Hst) | (text & -> & _)]]; cbn [status fst].
  - now left.
  - right. right. exact Hst.
  - right. now left.
Qed.

Lemma status_try_catch_all {A} (code : Z) (body : M A)
  (rollback : bool) (prefix : string) (db : DB) (fs : list (option str)) :
  In (status (fst (serve code (try_except body (server_error rollback prefix))
                     db fs)))
     [code; 500].
Proof.
  destruct (serve_try_catch_all code body rollback prefix db fs)
    as [[a ->] | (text & -> & _)]; cbn [status fst].
  - now left.
  - right. now left.
Qed.

Lemma status_checked {A} (codes : list Z) (code page limit : Z) (m : M A)
  (db : DB) (fs : list (option str)) :
  In (status (fst (serve code m db fs))) codes ->
  In (status (fst (serve code (check_pagination page limit ;;; m) db fs)))
     (400 :: codes).
Proof.
  intros H.
  assert (Hcases : valid_pagination page limit \/ ~ valid_pagination page limit)
    by (unfold valid_pagination; lia).
  destruct Hcases as [Hok | Hbad].
  - rewrite (serve_checked _ _ _ _ _ _ Hok). now right.
  - destruct (serve_unchecked code page limit m db fs Hbad) as [d ->].
    now left.
Qed.

(** X22.  Whatever the rows, the arguments and what the database does, each
    route answers with one of a few status codes: 201, 422 or 500 for the
    creation of a post; 200, 400 or 500 for the list of posts; 200, 404 or
    500 for the get and the delete of a post or of a comment; 200, 400, 404
    or 500 for the list of the comments of a post; 201, 400, 404, 422 or 500
    for the creation of a comment; 200, 404, 422 or 500 for the update of a
    comment. *)
Theorem routes_answer_known_statuses (db : DB) (fs : list (option str)) :
  (forall body now1 now2,
     In (status (fst (Route.POST_posts body now1 now2 db fs))) [201; 422; 500])
  /\ (forall page limit,
      In (status (fst (Route.GET_posts page limit db fs))) [200; 400; 500])
  /\ (forall k, In (status (fst (Route.GET_post k db fs))) [200; 404; 500])
  /\ (forall k, In (status (fst (Route.DELETE_post k db fs))) [200; 404; 500])
  /\ (forall k page limit,
      In (status (fst (Route.GET_post_comments k page limit db fs)))
         [200; 400; 404; 500])
  /\ (forall k body now1 now2,
      In (status (fst (Route.POST_post_comments k body now1 now2 db fs)))
         [201; 400; 404; 422; 500])
  /\ (forall k, In (status (fst (Route.GET_comment k db fs))) [200; 404; 500])
  /\ (forall k body now,
      In (status (fst (Route.PUT_comment k body now db fs)))
         [200; 404; 422; 500])
  /\ (forall k, In (status (fst (Route.DELETE_comment k db fs))) [200; 404; 500]).
Proof.
  pose proof (http_among_unexpected [404]) as Hu1.
  pose proof (http_among_unexpected [404; 400]) as Hu2.
  repeat match goal with |- _ /\ _ => split end.
  - intros body now1 now2. unfold Route.POST_posts.
    destruct (PostCreate.validate body) as [pd|e].
    + pose proof (status_try_catch_all HTTP_201_CREATED
                    (k <- db_add_post (fun id =>
                            Post.mk id (PostCreate.title pd)
                              (PostCreate.content pd)
                              (Some (PostCreate.author pd)) now1 now2) ;;
                     db_commit ;;;
                     db_post <- db_refresh_post k ;;
                     post_response db_post)
                    true "Failed to create post: " db fs) as H.
      unfold create_post. cbn [In] in *. unfold HTTP_201_CREATED in *.
      intuition.
    + cbn. auto.
  - intros page limit. unfold Route.GET_posts, get_posts.
    match goal with
    | |- context [serve ?c (_ ;;; try_except ?b ?h) _ _] =>
        pose proof (status_checked [HTTP_200_OK; 500] c page limit
                      (try_except b h) db fs
                      (status_try_catch_all c b false "Failed to fetch posts: "
                         db fs)) as H
    end.
    cbn [In] in *. unfold HTTP_200_OK in *. intuition.
  - intros k. unfold Route.GET_post, get_post.
    match goal with
    | |- context [serve ?c (try_except ?b _) _ _] =>
        pose proof (status_try_reraise [404] c b false
                      "Failed to retrieve post: " db fs) as H
    end.
    cbn [In] in *. unfold HTTP_200_OK in *.
    assert (H' := H ltac:(raises)). intuition.
  - intros k. unfold Route.DELETE_post, delete_post.
    match goal with
    | |- context [serve ?c (try_except ?b _) _ _] =>
        pose proof (status_try_reraise [404] c b true
                      "Failed to delete post: " db fs) as H
    end.
    cbn [In] in *. unfold HTTP_200_OK in *.
    assert (H' := H ltac:(raises)). intuition.
  - intros k page limit. unfold Route.GET_post_comments, get_comments.
    match goal with
    | |- context [serve ?c (_ ;;; try_except ?b ?h) _ _] =>
        pose proof (status_checked [HTTP_200_OK; 500; 404] c page limit
                      (try_except b h) db fs
                      (status_try_reraise [404] c b false
                         "Failed to fetch comments: " db fs ltac:(raises))) as H
    end.
    cbn [In] in *. unfold HTTP_200_OK in *. intuition.
  - intros k body now1 now2. unfold Route.POST_post_comments.
    destruct (CommentCreate.validate body) as [cd|e]; [|cbn; auto 6].
    unfold create_comment.
    match goal with
    | |- context [serve ?c (try_except ?b _) _ _] =>
        pose proof (status_try_reraise [404; 400] c b true
                      "Failed to create comment: " db fs) as H
    end.
    cbn [In] in *. unfold HTTP_201_CREATED in *.
    assert (H' := H ltac:(raises)). intuition.
  - intros k. unfold Route.GET_comment, get_comment.
    match goal with
    | |- context [serve ?c (try_except ?b _) _ _] =>
        pose proof (status_try_reraise [404] c b false
                      "Failed to retrieve comment: " db fs) as H
    end.
    cbn [In] in *. unfold HTTP_200_OK in *.
    assert (H' := H ltac:(raises)). intuition.
  - intros k body now. unfold Route.PUT_comment.
    destruct (CommentUpdate.validate body) as [cu|e]; [|cbn; auto 6].
    unfold update_comment.
    match goal with
    | |- context [serve ?c (try_except ?b _) _ _] =>
        pose proof (status_try_reraise [404] c b true
                      "Failed to update comment: " db fs) as H
    end.
    cbn [In] in *. unfold HTTP_200_OK in *.
    assert (H' := H ltac:(raises)). intuition.
  - intros k. unfold Route.DELETE_comment, delete_comment.
    match goal with
    | |- context [serve ?c (try_except ?b _) _ _] =>
        pose proof (status_try_reraise [404] c b true
                      "Failed to delete comment: " db fs) as H
    end.
    cbn [In] in *. unfold HTTP_200_OK in *.
    assert (H' := H ltac:(raises)). intuition.
Qed.

(** ** Rows the response schemas refuse *)

(** X23.  The tables allow a row without an author, the response schemas do
    not: a stored post or comment whose author is NULL cannot be read, the
    get route answers 500 (and leaves the rows unchanged). *)
Theorem row_without_author_is_not_served (db : DB) (k : Z) :
  (forall p, find_post k db = Some p -> Post.author p = None ->
     status (fst (Route.GET_post k db [])) = 500
     /\ store (snd (Route.GET_post k db [])) = db)
  /\ (forall c, find_comment k db = Some c -> Comment.author c = None ->
      status (fst (Route.GET_comment k db [])) = 500
      /\ store (snd (Route.GET_comment k db [])) = db).
Proof.
  split.
  - intros p Hf Ha. unfold Route.GET_post. run. rewrite Hf. run.
    unfold post_response. run. unfold PostResponse.new, checked, a_string.
    rewrite Ha.
    destruct (PostBase.title_must_not_be_empty (Post.title p));
      [destruct (PostBase.content_must_not_be_empty (Post.content p))|];
      split; reflexivity.
  - intros c Hf Ha. unfold Route.GET_comment. run. rewrite Hf. run.
    unfold comment_response. run. unfold CommentResponse.new, checked.
    rewrite Ha.
    destruct (CommentBase.content_must_not_be_empty (Comment.content c));
      split; reflexivity.
Qed.

(** A post stored without an author, in an otherwise empty database. *)
Example post_without_author_is_not_read :
  status (fst (Route.GET_post 1
                 (mkDB [Post.mk 1 (lit "A") (lit "B") None 10 11] []) []))
  = 500.
Proof. vm_compute. reflexivity. Qed.

(** Witnesses of the round trips, on the blog. *)
Lemma create_post_then_get_witness :
  exists resp,
    fst (Route.POST_posts Blog.blank_author 50 51 Blog.db []) = JSON 201 resp
    /\ fst (Route.GET_post (PostResponse.id resp)
              (store (snd (Route.POST_posts Blog.blank_author 50 51 Blog.db [])))
              [])
       = JSON 200 resp.
Proof.
  destruct (create_post_then_get Blog.db Blog.blank_author
              (PostCreate.mk (lit "A") (lit "B") (lit "   ")) 50 51 eq_refl)
    as (resp & H1 & _ & _ & _ & _ & _ & H2 & _).
  exists resp. split; assumption.
Defined.

Lemma create_comment_then_read_witness :
  exists resp,
    fst (Route.POST_post_comments 1 (Blog.reply_to 2) 40 41 Blog.db [])
    = JSON 201 resp
    /\ fst (Route.GET_comment (CommentResponse.id resp)
              (store (snd (Route.POST_post_comments 1 (Blog.reply_to 2) 40 41
                             Blog.db []))) [])
       = JSON 200 resp.
Proof.
  destruct (create_comment_then_read Blog.db 1 Blog.post1 (Blog.reply_to 2)
              (CommentCreate.mk (lit "again") (lit "w") (Some 2)) 40 41
              eq_refl eq_refl)
    as (resp & row & H1 & _ & H2 & _).
  - repeat split; discriminate.
  - exists Blog.comment2. split; reflexivity.
  - exists resp. split; assumption.
Defined.

(** ** Integers that SQLite cannot hold *)

Lemma find_post_wide (db : DB) (k : Z) :
  storable db -> sqlite_int k = false -> find_post k db = None.
Proof.
  intros (Hp & _) Hk. destruct (find_post k db) as [p|] eqn:E; [|reflexivity].
  pose proof (find_post_id _ _ _ E) as Hid.
  unfold find_post in E. apply find_some in E as [Hin _].
  rewrite Forall_forall in Hp. specialize (Hp p Hin). congruence.
Qed.

Lemma find_comment_wide (db : DB) (k : Z) :
  storable db -> sqlite_int k = false -> find_comment k db = None.
Proof.
  intros (_ & Hc & _) Hk.
  destruct (find_comment k db) as [c|] eqn:E; [|reflexivity].
  pose proof (find_comment_id _ _ _ E) as Hid.
  unfold find_comment in E. apply find_some in E as [Hin _].
  rewrite Forall_forall in Hc. specialize (Hc c Hin). congruence.
Qed.

Lemma blog_storable : storable Blog.db.
Proof.
  split; [|split; [|split; [reflexivity | reflexivity]]];
    repeat constructor.
Qed.

(** X24.  An id that is not a 64-bit integer is not looked up: on rows that
    SQLite can hold, and without a failure of the database, every route
    that is given such an id for a post or a comment, or for the parent of
    a new comment, answers 500, not 404, and leaves the rows unchanged. *)
Theorem wide_key_is_refused (db : DB) (k : Z) :
  storable db ->
  k < - 2 ^ 63 \/ 2 ^ 63 <= k ->
  let refused {A} (r : Response A * Session) :=
    status (fst r) = 500 /\ store (snd r) = db in
  refused (Route.GET_post k db [])
  /\ refused (Route.DELETE_post k db [])
  /\ (forall page limit, valid_pagination page limit ->
      refused (Route.GET_post_comments k page limit db []))
  /\ (forall body cd now1 now2, CommentCreate.validate body = inl cd ->
      refused (Route.POST_post_comments k body now1 now2 db []))
  /\ refused (Route.GET_comment k db [])
  /\ refused (Route.DELETE_comment k db [])
  /\ (forall body cu now, CommentUpdate.validate body = inl cu ->
      refused (Route.PUT_comment k body now db []))
  /\ (forall post_id p body cd now1 now2,
      find_post post_id db = Some p ->
      CommentCreate.validate body = inl cd ->
      CommentCreate.parent_comment_id cd = Some k ->
      refused (Route.POST_post_comments post_id body now1 now2 db [])).
Proof.
  intros Hs Hk.
  assert (Hw : sqlite_int k = false).
  { destruct (sqlite_int k) eqn:E; [|reflexivity].
    apply sqlite_int_spec in E. lia. }
  pose proof (find_post_wide db k Hs Hw) as Hp.
  pose proof (find_comment_wide db k Hs Hw) as Hc.
  cbv zeta. repeat match goal with |- _ /\ _ => split end.
  - unfold Route.GET_post. run. rewrite Hp, Hw. reflexivity.
  - unfold Route.GET_post. run. rewrite Hp, Hw. reflexivity.
  - unfold Route.DELETE_post. run. rewrite Hp, Hw. reflexivity.
  - unfold Route.DELETE_post. run. rewrite Hp, Hw. reflexivity.
  - intros page limit Hv. unfold Route.GET_post_comments, get_comments.
    rewrite serve_checked by assumption. run. rewrite Hp, Hw.
    split; reflexivity.
  - intros body cd now1 now2 Hb. unfold Route.POST_post_comments.
    rewrite Hb. run. rewrite Hp, Hw. split; reflexivity.
  - unfold Route.GET_comment. run. rewrite Hc, Hw. reflexivity.
  - unfold Route.GET_comment. run. rewrite Hc, Hw. reflexivity.
  - unfold Route.DELETE_comment. run. rewrite Hc, Hw. reflexivity.
  - unfold Route.DELETE_comment. run. rewrite Hc, Hw. reflexivity.
  - intros body cu now Hb. unfold Route.PUT_comment. rewrite Hb. run.
    rewrite Hc, Hw. split; reflexivity.
  - intros post_id p body cd now1 now2 Hf Hb Hparent.
    unfold Route.POST_post_comments. rewrite Hb. run. rewrite Hf. run.
    rewrite Hparent. run. rewrite Hc, Hw. split; reflexivity.
Qed.

(** The blog, asked for the post and for the comment [2 ^ 63]. *)
Lemma wide_key_is_refused_witness :
  status (fst (Route.GET_post (2 ^ 63) Blog.db [])) = 500
  /\ status (fst (Route.GET_comment (2 ^ 63) Blog.db [])) = 500.
Proof.
  destruct (wide_key_is_refused Blog.db (2 ^ 63) blog_storable ltac:(lia))
    as ([H1 _] & _ & _ & _ & [H2 _] & _).
  split; [exact H1 | exact H2].
Defined.

(** X25.  A page whose offset [(page - 1) * limit] is not a 64-bit integer
    is not read: on rows that SQLite can hold, and without a failure of the
    database, the list of posts and the list of the comments of a stored
    post answer 500 for a valid page and limit with such an offset, and
    leave the rows unchanged. *)
Theorem wide_offset_is_refused (db : DB) (page limit : Z) :
  storable db ->
  valid_pagination page limit ->
  2 ^ 63 <= (page - 1) * limit ->
  (status (fst (Route.GET_posts page limit db [])) = 500
   /\ store (snd (Route.GET_posts page limit db [])) = db)
  /\ (forall post_id p, find_post post_id db = Some p ->
      status (fst (Route.GET_post_comments post_id page limit db [])) = 500
      /\ store (snd (Route.GET_post_comments post_id page limit db [])) = db).
Proof.
  intros (_ & _ & Hn & Hm) [Hp Hl] Hw. split.
  - split; [|apply get_posts_keeps].
    rewrite (get_posts_wide_offset db page limit Hp Hl Hw); [reflexivity|lia].
  - intros post_id p Hf. split; [|apply get_comments_keeps].
    rewrite (get_comments_wide_offset db post_id page limit p Hp Hl Hf Hw);
      [reflexivity|].
    assert (len (comments_of post_id db) <= len (comments db)); [|lia].
    unfold len, comments_of. apply inj_le, filter_length_le.
Qed.

(** The page [2 ^ 63 + 1] of the posts of the blog, one post per page. *)
Lemma wide_offset_is_refused_witness :
  status (fst (Route.GET_posts (2 ^ 63 + 1) 1 Blog.db [])) = 500.
Proof.
  destruct (wide_offset_is_refused Blog.db (2 ^ 63 + 1) 1 blog_storable)
    as [[H _] _].
  - unfold valid_pagination. lia.
  - lia.
  - exact H.
Defined.

(** ** The clock and the time stamps *)














